(** * recourse: policy normalization, policy keys, hedge triggers and the
      retry-group coordinator

    A shallow embedding of the Go packages [policy], [hedge], [budget],
    [observe] and [retry] of aponysus/recourse, with the properties the
    specification states about them.

    Conventions.
    - Go [int] and [time.Duration] (int64 nanoseconds) are [Z].  The code
      of [Normalize] only compares them and assigns constants; the one
      subtraction of the development ([FixedDelayTrigger]) is written with
      its 64-bit wrap-around.
    - Go [float64] is [spec_float], the IEEE 754 model of the Standard
      Library, compared with [SFeqb] and [SFltb].
    - Go strings are [string] (a sequence of bytes).
    - A Go [error] is [option string]: [None] is [nil]. *)

From Stdlib Require Import ZArith Bool List String Ascii Lia SpecFloat ZifyBool.
Import ListNotations.
Open Scope string_scope.
Open Scope list_scope.
Open Scope Z_scope.

(** ** package time *)

Module time.

Definition Duration := Z.
Definition Time := Z.

Definition Nanosecond : Duration := 1.
Definition Millisecond : Duration := 1000000.
Definition Second : Duration := 1000000000.
Definition Minute : Duration := 60 * Second.

Definition minDuration : Duration := - 2 ^ 63.
Definition maxDuration : Duration := 2 ^ 63 - 1.

(** Two's complement wrap-around of a 64-bit signed integer. *)
Definition wrap64 (z : Z) : Z := (z + 2 ^ 63) mod 2 ^ 64 - 2 ^ 63.

(** [d1 - d2] on [time.Duration]. *)
Definition sub (d1 d2 : Duration) : Duration := wrap64 (d1 - d2).

(** [t.Sub(u)]: the difference of two instants, saturated to the range of
    [Duration]. *)
Definition Sub (t u : Time) : Duration :=
  Z.max minDuration (Z.min maxDuration (t - u)).

End time.

(** ** package strings (Go standard library)

    The three functions [ParseKey] uses.  A Go string is a byte sequence;
    [TrimSpace] removes the leading and trailing code points that
    [unicode.IsSpace] accepts, recognised by their UTF-8 encodings. *)

Module strings.

Definition bytes (l : list nat) : list ascii := map ascii_of_nat l.

(** UTF-8 encodings of the White_Space code points: U+0009..U+000D,
    U+0020, U+0085, U+00A0, U+1680, U+2000..U+200A, U+2028, U+2029,
    U+202F, U+205F, U+3000. *)
Definition spaceEncodings : list (list ascii) :=
  map bytes
    [ [9]; [10]; [11]; [12]; [13]; [32];
      [194; 133]; [194; 160];
      [225; 154; 128];
      [226; 128; 128]; [226; 128; 129]; [226; 128; 130]; [226; 128; 131];
      [226; 128; 132]; [226; 128; 133]; [226; 128; 134]; [226; 128; 135];
      [226; 128; 136]; [226; 128; 137]; [226; 128; 138];
      [226; 128; 168]; [226; 128; 169]; [226; 128; 175];
      [226; 129; 159];
      [227; 128; 128] ]%nat.

(** [stripPrefix w s] is the rest of [s] after the prefix [w], if [s]
    starts with [w]. *)
Fixpoint stripPrefix (w s : list ascii) : option (list ascii) :=
  match w, s with
  | [], _ => Some s
  | c :: w', d :: s' => if Ascii.eqb c d then stripPrefix w' s' else None
  | _ :: _, [] => None
  end.

(** The rest of [s] after one leading encoding of the table [enc]. *)
Fixpoint stripAny (enc : list (list ascii)) (s : list ascii) : option (list ascii) :=
  match enc with
  | [] => None
  | w :: enc' =>
    match stripPrefix w s with
    | Some r => Some r
    | None => stripAny enc' s
    end
  end.

(** Drop leading encodings of [enc] while there is one; [fuel] bounds the
    number of iterations and [length s] is always enough. *)
Fixpoint trimFront (enc : list (list ascii)) (fuel : nat) (s : list ascii) : list ascii :=
  match fuel with
  | O => s
  | S fuel' =>
    match stripAny enc s with
    | Some r => trimFront enc fuel' r
    | None => s
    end
  end.

Definition trimLeftSpace (s : list ascii) : list ascii :=
  trimFront spaceEncodings (List.length s) s.

(** Trailing white space: the same scan on the reversed bytes, with the
    encodings reversed. *)
Definition trimRightSpace (s : list ascii) : list ascii :=
  rev (trimFront (map (@rev ascii) spaceEncodings) (List.length s) (rev s)).

Definition TrimSpace (s : string) : string :=
  string_of_list_ascii (trimRightSpace (trimLeftSpace (list_ascii_of_string s))).

(** [IndexByte s c]: index of the first [c] in [s], or -1. *)
Fixpoint IndexByte (s : string) (c : ascii) : Z :=
  match s with
  | EmptyString => -1
  | String d s' =>
    if Ascii.eqb d c then 0
    else let i := IndexByte s' c in if i <? 0 then -1 else i + 1
  end.

(** The slices [s[:i]] and [s[i:]] for [0 <= i <= len(s)]. *)
Definition sliceTo (s : string) (i : Z) : string := substring 0 (Z.to_nat i) s.
Definition sliceFrom (s : string) (i : Z) : string :=
  substring (Z.to_nat i) (String.length s - Z.to_nat i) s.

End strings.

(** ** package policy *)

Module policy.

Definition JitterKind := string.
Definition JitterNone : JitterKind := "none".
Definition JitterFull : JitterKind := "full".
Definition JitterEqual : JitterKind := "equal".

Definition float64 := spec_float.
Definition f64_0 : float64 := S754_zero false.
Definition f64_1 : float64 := S754_finite false 4503599627370496 (-52).
Definition f64_2 : float64 := S754_finite false 4503599627370496 (-51).
Definition f64_10 : float64 := S754_finite false 5629499534213120 (-49).

Module PolicyKey.
Record t := mk { Namespace : string; Name : string }.
End PolicyKey.

Module BudgetRef.
Record t := mk { Name : string; Cost : Z }.
End BudgetRef.

Module RetryPolicy.
Record t := mk {
  MaxAttempts : Z;
  InitialBackoff : time.Duration;
  MaxBackoff : time.Duration;
  BackoffMultiplier : float64;
  Jitter : JitterKind;
  TimeoutPerAttempt : time.Duration;
  OverallTimeout : time.Duration;
  ClassifierName : string;
  Budget : BudgetRef.t
}.
End RetryPolicy.

Module HedgePolicy.
Record t := mk {
  Enabled : bool;
  MaxHedges : Z;
  HedgeDelay : time.Duration;
  TriggerName : string;
  CancelOnFirstTerminal : bool;
  Budget : BudgetRef.t
}.
End HedgePolicy.

Module CircuitPolicy.
Record t := mk { Enabled : bool; Threshold : Z; Cooldown : time.Duration }.
End CircuitPolicy.

Definition PolicySource := string.
Definition PolicySourceUnknown : PolicySource := "unknown".
Definition PolicySourceStatic : PolicySource := "static".
Definition PolicySourceRemote : PolicySource := "remote".
Definition PolicySourceLKG : PolicySource := "lkg".
Definition PolicySourceDefault : PolicySource := "default".

Module NormalizationInfo.
Record t := mk { Changed : bool; ChangedFields : list string }.
End NormalizationInfo.

Module Metadata.
Record t := mk { Source : PolicySource; Normalization : NormalizationInfo.t }.
End Metadata.

Record EffectivePolicy := mkEffectivePolicy {
  Key : PolicyKey.t;
  ID : string;
  Retry : RetryPolicy.t;
  Hedge : HedgePolicy.t;
  Circuit : CircuitPolicy.t;
  Meta : Metadata.t
}.

(** The zero value [EffectivePolicy{}]. *)
Definition zeroEffectivePolicy : EffectivePolicy :=
  mkEffectivePolicy (PolicyKey.mk "" "") ""
    (RetryPolicy.mk 0 0 0 f64_0 "" 0 0 "" (BudgetRef.mk "" 0))
    (HedgePolicy.mk false 0 0 "" false (BudgetRef.mk "" 0))
    (CircuitPolicy.mk false 0 0)
    (Metadata.mk "" (NormalizationInfo.mk false [])).

Definition DefaultPolicyFor (key : PolicyKey.t) : EffectivePolicy :=
  mkEffectivePolicy key ""
    (RetryPolicy.mk 3 (10 * time.Millisecond) (250 * time.Millisecond)
       f64_2 JitterNone 0 0 "" (BudgetRef.mk "" 1))
    (HedgePolicy.mk false 0 0 "" false (BudgetRef.mk "" 1))
    (CircuitPolicy.mk false 0 0)
    (Metadata.mk PolicySourceDefault (NormalizationInfo.mk false [])).

Definition maxRetryAttempts : Z := 10.
Definition maxHedges : Z := 3.
Definition minBackoffFloor : time.Duration := 1 * time.Millisecond.
Definition minHedgeDelayFloor : time.Duration := 10 * time.Millisecond.
Definition maxBackoffCeiling : time.Duration := 30 * time.Second.
Definition minTimeoutFloor : time.Duration := 1 * time.Millisecond.
Definition maxBackoffMultiplier : float64 := f64_10.
Definition minCircuitThreshold : Z := 1.
Definition minCircuitCooldown : time.Duration := 100 * time.Millisecond.

(** *** Field assignment on the working copy [normalized] *)

Definition withRetry (f : RetryPolicy.t -> RetryPolicy.t) (p : EffectivePolicy) :=
  mkEffectivePolicy (Key p) (ID p) (f (Retry p)) (Hedge p) (Circuit p) (Meta p).
Definition withHedge (f : HedgePolicy.t -> HedgePolicy.t) (p : EffectivePolicy) :=
  mkEffectivePolicy (Key p) (ID p) (Retry p) (f (Hedge p)) (Circuit p) (Meta p).
Definition withCircuit (f : CircuitPolicy.t -> CircuitPolicy.t) (p : EffectivePolicy) :=
  mkEffectivePolicy (Key p) (ID p) (Retry p) (Hedge p) (f (Circuit p)) (Meta p).
Definition withNormalization (f : NormalizationInfo.t -> NormalizationInfo.t)
    (p : EffectivePolicy) :=
  mkEffectivePolicy (Key p) (ID p) (Retry p) (Hedge p) (Circuit p)
    (Metadata.mk (Metadata.Source (Meta p)) (f (Metadata.Normalization (Meta p)))).

Definition setCost (v : Z) (b : BudgetRef.t) := BudgetRef.mk (BudgetRef.Name b) v.

Definition setMaxAttempts (v : Z) := withRetry (fun r =>
  RetryPolicy.mk v (RetryPolicy.InitialBackoff r) (RetryPolicy.MaxBackoff r)
    (RetryPolicy.BackoffMultiplier r) (RetryPolicy.Jitter r)
    (RetryPolicy.TimeoutPerAttempt r) (RetryPolicy.OverallTimeout r)
    (RetryPolicy.ClassifierName r) (RetryPolicy.Budget r)).
Definition setInitialBackoff (v : time.Duration) := withRetry (fun r =>
  RetryPolicy.mk (RetryPolicy.MaxAttempts r) v (RetryPolicy.MaxBackoff r)
    (RetryPolicy.BackoffMultiplier r) (RetryPolicy.Jitter r)
    (RetryPolicy.TimeoutPerAttempt r) (RetryPolicy.OverallTimeout r)
    (RetryPolicy.ClassifierName r) (RetryPolicy.Budget r)).
Definition setMaxBackoff (v : time.Duration) := withRetry (fun r =>
  RetryPolicy.mk (RetryPolicy.MaxAttempts r) (RetryPolicy.InitialBackoff r) v
    (RetryPolicy.BackoffMultiplier r) (RetryPolicy.Jitter r)
    (RetryPolicy.TimeoutPerAttempt r) (RetryPolicy.OverallTimeout r)
    (RetryPolicy.ClassifierName r) (RetryPolicy.Budget r)).
Definition setBackoffMultiplier (v : float64) := withRetry (fun r =>
  RetryPolicy.mk (RetryPolicy.MaxAttempts r) (RetryPolicy.InitialBackoff r)
    (RetryPolicy.MaxBackoff r) v (RetryPolicy.Jitter r)
    (RetryPolicy.TimeoutPerAttempt r) (RetryPolicy.OverallTimeout r)
    (RetryPolicy.ClassifierName r) (RetryPolicy.Budget r)).
Definition setJitter (v : JitterKind) := withRetry (fun r =>
  RetryPolicy.mk (RetryPolicy.MaxAttempts r) (RetryPolicy.InitialBackoff r)
    (RetryPolicy.MaxBackoff r) (RetryPolicy.BackoffMultiplier r) v
    (RetryPolicy.TimeoutPerAttempt r) (RetryPolicy.OverallTimeout r)
    (RetryPolicy.ClassifierName r) (RetryPolicy.Budget r)).
Definition setTimeoutPerAttempt (v : time.Duration) := withRetry (fun r =>
  RetryPolicy.mk (RetryPolicy.MaxAttempts r) (RetryPolicy.InitialBackoff r)
    (RetryPolicy.MaxBackoff r) (RetryPolicy.BackoffMultiplier r)
    (RetryPolicy.Jitter r) v (RetryPolicy.OverallTimeout r)
    (RetryPolicy.ClassifierName r) (RetryPolicy.Budget r)).
Definition setOverallTimeout (v : time.Duration) := withRetry (fun r =>
  RetryPolicy.mk (RetryPolicy.MaxAttempts r) (RetryPolicy.InitialBackoff r)
    (RetryPolicy.MaxBackoff r) (RetryPolicy.BackoffMultiplier r)
    (RetryPolicy.Jitter r) (RetryPolicy.TimeoutPerAttempt r) v
    (RetryPolicy.ClassifierName r) (RetryPolicy.Budget r)).
Definition setRetryBudgetCost (v : Z) := withRetry (fun r =>
  RetryPolicy.mk (RetryPolicy.MaxAttempts r) (RetryPolicy.InitialBackoff r)
    (RetryPolicy.MaxBackoff r) (RetryPolicy.BackoffMultiplier r)
    (RetryPolicy.Jitter r) (RetryPolicy.TimeoutPerAttempt r)
    (RetryPolicy.OverallTimeout r) (RetryPolicy.ClassifierName r)
    (setCost v (RetryPolicy.Budget r))).

Definition setHedgeBudgetCost (v : Z) := withHedge (fun h =>
  HedgePolicy.mk (HedgePolicy.Enabled h) (HedgePolicy.MaxHedges h)
    (HedgePolicy.HedgeDelay h) (HedgePolicy.TriggerName h)
    (HedgePolicy.CancelOnFirstTerminal h) (setCost v (HedgePolicy.Budget h))).
Definition setMaxHedges (v : Z) := withHedge (fun h =>
  HedgePolicy.mk (HedgePolicy.Enabled h) v (HedgePolicy.HedgeDelay h)
    (HedgePolicy.TriggerName h) (HedgePolicy.CancelOnFirstTerminal h)
    (HedgePolicy.Budget h)).
Definition setHedgeDelay (v : time.Duration) := withHedge (fun h =>
  HedgePolicy.mk (HedgePolicy.Enabled h) (HedgePolicy.MaxHedges h) v
    (HedgePolicy.TriggerName h) (HedgePolicy.CancelOnFirstTerminal h)
    (HedgePolicy.Budget h)).

Definition setThreshold (v : Z) := withCircuit (fun c =>
  CircuitPolicy.mk (CircuitPolicy.Enabled c) v (CircuitPolicy.Cooldown c)).
Definition setCooldown (v : time.Duration) := withCircuit (fun c =>
  CircuitPolicy.mk (CircuitPolicy.Enabled c) (CircuitPolicy.Threshold c) v).

(** The search loop of [markChanged]: is [field] already recorded? *)
Definition hasField (field : string) (fields : list string) : bool :=
  existsb (String.eqb field) fields.

(** The closure [markChanged] of [Normalize]: sets [Changed] and appends
    the field path unless it is already recorded. *)
Definition markChanged (field : string) : EffectivePolicy -> EffectivePolicy :=
  withNormalization (fun norm =>
    NormalizationInfo.mk true
      (if hasField field (NormalizationInfo.ChangedFields norm)
       then NormalizationInfo.ChangedFields norm
       else NormalizationInfo.ChangedFields norm ++ [field])).

(** *** Normalize, block by block

    Each definition below is one block of [EffectivePolicy.Normalize], in
    the order of the source; [normalized] is the working copy the Go code
    mutates. *)

Definition MaxAttemptsOf (p : EffectivePolicy) := RetryPolicy.MaxAttempts (Retry p).
Definition InitialBackoffOf (p : EffectivePolicy) := RetryPolicy.InitialBackoff (Retry p).
Definition MaxBackoffOf (p : EffectivePolicy) := RetryPolicy.MaxBackoff (Retry p).
Definition BackoffMultiplierOf (p : EffectivePolicy) := RetryPolicy.BackoffMultiplier (Retry p).
Definition JitterOf (p : EffectivePolicy) := RetryPolicy.Jitter (Retry p).
Definition TimeoutPerAttemptOf (p : EffectivePolicy) := RetryPolicy.TimeoutPerAttempt (Retry p).
Definition OverallTimeoutOf (p : EffectivePolicy) := RetryPolicy.OverallTimeout (Retry p).
Definition RetryCostOf (p : EffectivePolicy) := BudgetRef.Cost (RetryPolicy.Budget (Retry p)).
Definition HedgeCostOf (p : EffectivePolicy) := BudgetRef.Cost (HedgePolicy.Budget (Hedge p)).
Definition HedgeEnabledOf (p : EffectivePolicy) := HedgePolicy.Enabled (Hedge p).
Definition MaxHedgesOf (p : EffectivePolicy) := HedgePolicy.MaxHedges (Hedge p).
Definition HedgeDelayOf (p : EffectivePolicy) := HedgePolicy.HedgeDelay (Hedge p).
Definition CircuitEnabledOf (p : EffectivePolicy) := CircuitPolicy.Enabled (Circuit p).
Definition ThresholdOf (p : EffectivePolicy) := CircuitPolicy.Threshold (Circuit p).
Definition CooldownOf (p : EffectivePolicy) := CircuitPolicy.Cooldown (Circuit p).
Definition ChangedOf (p : EffectivePolicy) :=
  NormalizationInfo.Changed (Metadata.Normalization (Meta p)).
Definition ChangedFieldsOf (p : EffectivePolicy) :=
  NormalizationInfo.ChangedFields (Metadata.Normalization (Meta p)).

Definition normMaxAttempts (normalized : EffectivePolicy) : EffectivePolicy :=
  let normalized :=
    if MaxAttemptsOf normalized =? 0
    then markChanged "retry.max_attempts" (setMaxAttempts 3 normalized)
    else normalized in
  if MaxAttemptsOf normalized <? 1
  then markChanged "retry.max_attempts" (setMaxAttempts 1 normalized)
  else if MaxAttemptsOf normalized >? maxRetryAttempts
  then markChanged "retry.max_attempts" (setMaxAttempts maxRetryAttempts normalized)
  else normalized.

Definition normInitialBackoff (normalized : EffectivePolicy) : EffectivePolicy :=
  let normalized :=
    if InitialBackoffOf normalized <=? 0
    then markChanged "retry.initial_backoff"
           (setInitialBackoff (10 * time.Millisecond) normalized)
    else normalized in
  if InitialBackoffOf normalized <? minBackoffFloor
  then markChanged "retry.initial_backoff" (setInitialBackoff minBackoffFloor normalized)
  else normalized.

Definition normMaxBackoff (normalized : EffectivePolicy) : EffectivePolicy :=
  let normalized :=
    if MaxBackoffOf normalized <=? 0
    then markChanged "retry.max_backoff"
           (setMaxBackoff (250 * time.Millisecond) normalized)
    else normalized in
  let normalized :=
    if MaxBackoffOf normalized >? maxBackoffCeiling
    then markChanged "retry.max_backoff" (setMaxBackoff maxBackoffCeiling normalized)
    else normalized in
  if MaxBackoffOf normalized <? InitialBackoffOf normalized
  then markChanged "retry.max_backoff"
         (setMaxBackoff (InitialBackoffOf normalized) normalized)
  else normalized.

Definition normBackoffMultiplier (normalized : EffectivePolicy) : EffectivePolicy :=
  let normalized :=
    if SFeqb (BackoffMultiplierOf normalized) f64_0
    then markChanged "retry.backoff_multiplier" (setBackoffMultiplier f64_2 normalized)
    else normalized in
  if SFltb (BackoffMultiplierOf normalized) f64_1
  then markChanged "retry.backoff_multiplier" (setBackoffMultiplier f64_1 normalized)
  else if SFltb maxBackoffMultiplier (BackoffMultiplierOf normalized)
  then markChanged "retry.backoff_multiplier"
         (setBackoffMultiplier maxBackoffMultiplier normalized)
  else normalized.

(** The [switch] on [Retry.Jitter]; [None] is the [*NormalizeError] return. *)
Definition normJitter (normalized : EffectivePolicy) : option EffectivePolicy :=
  if (JitterOf normalized =? "")%string
  then Some (markChanged "retry.jitter" (setJitter JitterNone normalized))
  else if ((JitterOf normalized =? JitterNone)
           || (JitterOf normalized =? JitterFull)
           || (JitterOf normalized =? JitterEqual))%string
  then Some normalized
  else None.

Definition normTimeoutPerAttempt (normalized : EffectivePolicy) : EffectivePolicy :=
  let normalized :=
    if TimeoutPerAttemptOf normalized <? 0
    then markChanged "retry.timeout_per_attempt" (setTimeoutPerAttempt 0 normalized)
    else normalized in
  if (TimeoutPerAttemptOf normalized >? 0)
     && (TimeoutPerAttemptOf normalized <? minTimeoutFloor)
  then markChanged "retry.timeout_per_attempt"
         (setTimeoutPerAttempt minTimeoutFloor normalized)
  else normalized.

Definition normOverallTimeout (normalized : EffectivePolicy) : EffectivePolicy :=
  let normalized :=
    if OverallTimeoutOf normalized <? 0
    then markChanged "retry.overall_timeout" (setOverallTimeout 0 normalized)
    else normalized in
  if (OverallTimeoutOf normalized >? 0)
     && (OverallTimeoutOf normalized <? minTimeoutFloor)
  then markChanged "retry.overall_timeout"
         (setOverallTimeout minTimeoutFloor normalized)
  else normalized.

Definition normRetryBudgetCost (normalized : EffectivePolicy) : EffectivePolicy :=
  let normalized :=
    if RetryCostOf normalized =? 0
    then markChanged "retry.budget.cost" (setRetryBudgetCost 1 normalized)
    else normalized in
  if RetryCostOf normalized <? 1
  then markChanged "retry.budget.cost" (setRetryBudgetCost 1 normalized)
  else normalized.

Definition normHedgeBudgetCost (normalized : EffectivePolicy) : EffectivePolicy :=
  let normalized :=
    if HedgeCostOf normalized =? 0
    then markChanged "hedge.budget.cost" (setHedgeBudgetCost 1 normalized)
    else normalized in
  if HedgeCostOf normalized <? 1
  then markChanged "hedge.budget.cost" (setHedgeBudgetCost 1 normalized)
  else normalized.

Definition normMaxHedges (normalized : EffectivePolicy) : EffectivePolicy :=
  let normalized :=
    if MaxHedgesOf normalized =? 0
    then markChanged "hedge.max_hedges" (setMaxHedges 2 normalized)
    else normalized in
  if MaxHedgesOf normalized <? 1
  then markChanged "hedge.max_hedges" (setMaxHedges 1 normalized)
  else if MaxHedgesOf normalized >? maxHedges
  then markChanged "hedge.max_hedges" (setMaxHedges maxHedges normalized)
  else normalized.

Definition normHedgeDelay (normalized : EffectivePolicy) : EffectivePolicy :=
  let normalized :=
    if HedgeDelayOf normalized <=? 0
    then markChanged "hedge.hedge_delay"
           (setHedgeDelay (200 * time.Millisecond) normalized)
    else normalized in
  if HedgeDelayOf normalized <? minHedgeDelayFloor
  then markChanged "hedge.hedge_delay" (setHedgeDelay minHedgeDelayFloor normalized)
  else normalized.

Definition normThreshold (normalized : EffectivePolicy) : EffectivePolicy :=
  let normalized :=
    if ThresholdOf normalized <=? 0
    then markChanged "circuit.threshold" (setThreshold 5 normalized)
    else normalized in
  if ThresholdOf normalized <? minCircuitThreshold
  then markChanged "circuit.threshold" (setThreshold minCircuitThreshold normalized)
  else normalized.

Definition normCooldown (normalized : EffectivePolicy) : EffectivePolicy :=
  let normalized :=
    if CooldownOf normalized <=? 0
    then markChanged "circuit.cooldown" (setCooldown (10 * time.Second) normalized)
    else normalized in
  if CooldownOf normalized <? minCircuitCooldown
  then markChanged "circuit.cooldown" (setCooldown minCircuitCooldown normalized)
  else normalized.

(** [func (p EffectivePolicy) Normalize() (EffectivePolicy, error)].
    [None] stands for the error return (the only one is the invalid
    jitter); the two early [return normalized, nil] are the tests on
    [Hedge.Enabled] and [Circuit.Enabled]. *)
Definition Normalize (p : EffectivePolicy) : option EffectivePolicy :=
  let normalized := p in
  let normalized := normMaxAttempts normalized in
  let normalized := normInitialBackoff normalized in
  let normalized := normMaxBackoff normalized in
  let normalized := normBackoffMultiplier normalized in
  match normJitter normalized with
  | None => None
  | Some normalized =>
    let normalized := normTimeoutPerAttempt normalized in
    let normalized := normOverallTimeout normalized in
    let normalized := normRetryBudgetCost normalized in
    let normalized := normHedgeBudgetCost normalized in
    if negb (HedgeEnabledOf normalized) then Some normalized else
    let normalized := normMaxHedges normalized in
    let normalized := normHedgeDelay normalized in
    if negb (CircuitEnabledOf normalized) then Some normalized else
    let normalized := normThreshold normalized in
    let normalized := normCooldown normalized in
    Some normalized
  end.

(** *** Policy keys *)

(** [ParseKey] parses "namespace.name"; without a dot the whole string
    is the name. *)
Definition ParseKey (s : string) : PolicyKey.t :=
  let s := strings.TrimSpace s in
  if (s =? "")%string then PolicyKey.mk "" "" else
  let i := strings.IndexByte s "." in
  if i <? 0 then PolicyKey.mk "" s else
  let ns := strings.TrimSpace (strings.sliceTo s i) in
  let name := strings.TrimSpace (strings.sliceFrom s (i + 1)) in
  if (name =? "")%string then PolicyKey.mk "" s
  else PolicyKey.mk ns name.

(** [func (k PolicyKey) String() string]. *)
Definition PolicyKey_String (k : PolicyKey.t) : string :=
  if (PolicyKey.Namespace k =? "")%string then PolicyKey.Name k
  else if (PolicyKey.Name k =? "")%string then PolicyKey.Namespace k
  else (PolicyKey.Namespace k ++ "." ++ PolicyKey.Name k)%string.

(** *** Functional options (options.go) *)

(** [type Option]: a function that mutates the policy under construction
    through a pointer. *)
Definition Option := EffectivePolicy -> EffectivePolicy.

Definition NewFromKey (key : PolicyKey.t) (opts : list Option) : EffectivePolicy :=
  let p := DefaultPolicyFor key in
  let p := fold_left (fun p opt => opt p) opts p in
  match Normalize p with
  | Some normalized => normalized
  | None =>
    let p := DefaultPolicyFor key in
    match Normalize p with
    | Some normalized => normalized
    | None => zeroEffectivePolicy
    end
  end.

Definition New (key : string) (opts : list Option) : EffectivePolicy :=
  NewFromKey (ParseKey key) opts.

Definition MaxAttempts (n : Z) : Option := setMaxAttempts n.
Definition InitialBackoff (d : time.Duration) : Option := setInitialBackoff d.
Definition MaxBackoff (d : time.Duration) : Option := setMaxBackoff d.
Definition BackoffMultiplier (m : float64) : Option := setBackoffMultiplier m.
Definition Jitter (j : JitterKind) : Option := setJitter j.

(** Assignments the other options make. *)
Definition setRetryBudget (b : BudgetRef.t) := withRetry (fun r =>
  RetryPolicy.mk (RetryPolicy.MaxAttempts r) (RetryPolicy.InitialBackoff r)
    (RetryPolicy.MaxBackoff r) (RetryPolicy.BackoffMultiplier r)
    (RetryPolicy.Jitter r) (RetryPolicy.TimeoutPerAttempt r)
    (RetryPolicy.OverallTimeout r) (RetryPolicy.ClassifierName r) b).
Definition setClassifierName (name : string) := withRetry (fun r =>
  RetryPolicy.mk (RetryPolicy.MaxAttempts r) (RetryPolicy.InitialBackoff r)
    (RetryPolicy.MaxBackoff r) (RetryPolicy.BackoffMultiplier r)
    (RetryPolicy.Jitter r) (RetryPolicy.TimeoutPerAttempt r)
    (RetryPolicy.OverallTimeout r) name (RetryPolicy.Budget r)).
Definition setID (id : string) (p : EffectivePolicy) :=
  mkEffectivePolicy (Key p) id (Retry p) (Hedge p) (Circuit p) (Meta p).
Definition setHedgeEnabled (v : bool) := withHedge (fun h =>
  HedgePolicy.mk v (HedgePolicy.MaxHedges h) (HedgePolicy.HedgeDelay h)
    (HedgePolicy.TriggerName h) (HedgePolicy.CancelOnFirstTerminal h)
    (HedgePolicy.Budget h)).
Definition setTriggerName (name : string) := withHedge (fun h =>
  HedgePolicy.mk (HedgePolicy.Enabled h) (HedgePolicy.MaxHedges h)
    (HedgePolicy.HedgeDelay h) name (HedgePolicy.CancelOnFirstTerminal h)
    (HedgePolicy.Budget h)).
Definition setHedgeBudget (b : BudgetRef.t) := withHedge (fun h =>
  HedgePolicy.mk (HedgePolicy.Enabled h) (HedgePolicy.MaxHedges h)
    (HedgePolicy.HedgeDelay h) (HedgePolicy.TriggerName h)
    (HedgePolicy.CancelOnFirstTerminal h) b).
Definition setCancelOnFirstTerminal (v : bool) := withHedge (fun h =>
  HedgePolicy.mk (HedgePolicy.Enabled h) (HedgePolicy.MaxHedges h)
    (HedgePolicy.HedgeDelay h) (HedgePolicy.TriggerName h) v
    (HedgePolicy.Budget h)).

(** [Backoff] sets initial, max and multiplier together. *)
Definition Backoff (initial max : time.Duration) (multiplier : float64) : Option :=
  fun p => setBackoffMultiplier multiplier (setMaxBackoff max (setInitialBackoff initial p)).
Definition PerAttemptTimeout (d : time.Duration) : Option := setTimeoutPerAttempt d.
Definition OverallTimeout (d : time.Duration) : Option := setOverallTimeout d.
Definition Classifier (name : string) : Option := setClassifierName name.
Definition Budget (name : string) : Option := setRetryBudget (BudgetRef.mk name 1).
Definition BudgetWithCost (name : string) (cost : Z) : Option :=
  setRetryBudget (BudgetRef.mk name cost).
Definition PolicyID (id : string) : Option := setID id.

(** [EnableHedging] enables hedging and fills the two fields that are
    still zero. *)
Definition EnableHedging : Option :=
  fun p =>
    let p := setHedgeEnabled true p in
    let p := if HedgePolicy.MaxHedges (Hedge p) =? 0 then setMaxHedges 2 p else p in
    if HedgePolicy.HedgeDelay (Hedge p) =? 0
    then setHedgeDelay (200 * time.Millisecond) p
    else p.
Definition HedgeMaxAttempts (n : Z) : Option :=
  fun p => setMaxHedges n (setHedgeEnabled true p).
Definition HedgeDelay (d : time.Duration) : Option :=
  fun p => setHedgeDelay d (setHedgeEnabled true p).
Definition HedgeTrigger (name : string) : Option :=
  fun p => setTriggerName name (setHedgeEnabled true p).
Definition HedgeBudget (name : string) : Option := setHedgeBudget (BudgetRef.mk name 1).
Definition HedgeCancelOnTerminal (cancel : bool) : Option :=
  setCancelOnFirstTerminal cancel.

(** Presets. *)
Definition ExponentialBackoff (initial max : time.Duration) : Option :=
  fun p =>
    setJitter JitterEqual
      (setBackoffMultiplier f64_2 (setMaxBackoff max (setInitialBackoff initial p))).
Definition ConstantBackoff (delay : time.Duration) : Option :=
  fun p =>
    setJitter JitterNone
      (setBackoffMultiplier f64_1 (setMaxBackoff delay (setInitialBackoff delay p))).
Definition HTTPDefaults : Option :=
  fun p =>
    setClassifierName "http"
      (setOverallTimeout (30 * time.Second)
         (setTimeoutPerAttempt (10 * time.Second)
            (setJitter JitterFull
               (setBackoffMultiplier f64_2
                  (setMaxBackoff (2 * time.Second)
                     (setInitialBackoff (100 * time.Millisecond)
                        (setMaxAttempts 3 p))))))).
Definition DatabaseDefaults : Option :=
  fun p =>
    setOverallTimeout (60 * time.Second)
      (setTimeoutPerAttempt (30 * time.Second)
         (setJitter JitterEqual
            (setBackoffMultiplier f64_2
               (setMaxBackoff (5 * time.Second)
                  (setInitialBackoff (100 * time.Millisecond)
                     (setMaxAttempts 3 p)))))).
Definition BackgroundJobDefaults : Option :=
  fun p =>
    setOverallTimeout (5 * time.Minute)
      (setJitter JitterFull
         (setBackoffMultiplier f64_2
            (setMaxBackoff (30 * time.Second)
               (setInitialBackoff (1 * time.Second)
                  (setMaxAttempts 5 p))))).
Definition LowLatencyDefaults : Option :=
  fun p =>
    setHedgeDelay (100 * time.Millisecond)
      (setMaxHedges 2
         (setHedgeEnabled true
            (setOverallTimeout (1 * time.Second)
               (setTimeoutPerAttempt (500 * time.Millisecond)
                  (setJitter JitterEqual
                     (setBackoffMultiplier f64_2
                        (setMaxBackoff (50 * time.Millisecond)
                           (setInitialBackoff (10 * time.Millisecond)
                              (setMaxAttempts 2 p))))))))).

End policy.

(** ** package hedge *)

Module hedge.

(** Modelled from the spec: [HedgeState] is declared in package hedge
    outside src/; the fields are those of the spec's
    [HedgeState{callStart, attemptStart, attemptsLaunched, maxHedges,
    elapsed}], with the names the coordinator uses. *)
Record HedgeState := mkHedgeState {
  CallStart : time.Time;
  AttemptStart : time.Time;
  AttemptsLaunched : Z;
  MaxHedges : Z;
  Elapsed : time.Duration
}.

(** The interface [Trigger]: its one method [ShouldSpawnHedge]. *)
Definition Trigger := HedgeState -> bool * time.Duration.

(** [FixedDelayTrigger] spawns a hedge after a fixed delay. *)
Record FixedDelayTrigger := mkFixedDelayTrigger { Delay : time.Duration }.

Definition ShouldSpawnHedge (t : FixedDelayTrigger) (state : HedgeState)
  : bool * time.Duration :=
  if Elapsed state <? Delay t
  then (false, time.sub (Delay t) (Elapsed state))
  else if AttemptsLaunched state >? 1
  then (false, 0)
  else (true, 0).

(** [Registry.Get]: the registry as the lookup it offers. *)
Definition Registry := string -> option Trigger.

(** [NewRegistry] creates an empty registry. *)
Definition NewRegistry : Registry := fun _ => None.

Definition Get (r : Registry) (name : string) : option Trigger := r name.

(** [Register] adds a trigger under a name; the trigger argument is an
    interface value, [None] for nil.  The result is [None] when the Go
    code panics (empty name or nil trigger). *)
Definition Register (r : Registry) (name : string) (t : option Trigger)
  : option Registry :=
  if (name =? "")%string then None
  else match t with
       | None => None
       | Some trig =>
         Some (fun n => if (n =? name)%string then Some trig else r n)
       end.

End hedge.

(** ** package internal *)

Module internal.

(** The kinds [IsTypedNil] tells apart: the six it asks [IsNil] of, and
    every other kind. *)
Inductive Kind := Ptr | Map | Slice | Func | Interface | Chan | OtherKind.

(** A value of type [any]: the nil interface, or a value of some kind;
    [isNil] is the answer of [reflect.Value.IsNil] for the kinds that have
    one. *)
Inductive any :=
  | Nil
  | Value (kind : Kind) (isNil : bool).

(** [IsTypedNil] returns true if [x] is nil or a typed nil interface
    value. *)
Definition IsTypedNil (x : any) : bool :=
  match x with
  | Nil => true
  | Value kind isNil =>
    match kind with
    | Ptr | Map | Slice | Func | Interface | Chan => isNil
    | OtherKind => false
    end
  end.

End internal.

(** ** package budget *)

Module budget.

Inductive AttemptKind := KindRetry | KindHedge.

Definition ReasonAllowed := "allowed".
Definition ReasonNoBudget := "no_budget".
Definition ReasonBudgetNotFound := "budget_not_found".
Definition ReasonBudgetDenied := "budget_denied".
Definition ReasonPanicInBudget := "panic_in_budget".
Definition ReasonBudgetRegistryNil := "budget_registry_nil".
Definition ReasonBudgetNil := "budget_nil".

(** [Release] is a [func()]; it is modelled by a handle, [None] for nil. *)
Record Decision := mkDecision {
  Allowed : bool;
  Reason : string;
  Release : option nat
}.

(** *** The registry (registry.go) *)

(** A value of the interface [Budget]: the nil interface, or an
    implementation, identified by [impl], held in a dynamic value of some
    kind that may itself be nil (a typed nil). *)
Inductive Budget :=
  | NilBudget
  | Impl (kind : internal.Kind) (isNil : bool) (impl : nat).

Definition asAny (b : Budget) : internal.any :=
  match b with
  | NilBudget => internal.Nil
  | Impl kind isNil _ => internal.Value kind isNil
  end.

(** [b != nil] on the interface value. *)
Definition notNil (b : Budget) : bool :=
  match b with NilBudget => false | Impl _ _ _ => true end.

(** The struct [Registry]: its map, [None] for a nil map.  A pointer to a
    registry is an [option Registry], [None] for the nil pointer; the
    mutex is left out, the methods are taken one call at a time. *)
Record Registry := mkRegistry { m : option (string -> option Budget) }.

Definition NewRegistry : option Registry :=
  Some (mkRegistry (Some (fun _ => None))).

(** [RegisterE]: the registry after the call and the error returned. *)
Definition RegisterE (r : option Registry) (name : string) (b : Budget)
  : option Registry * option string :=
  match r with
  | None => (r, Some "registry is nil")
  | Some reg =>
    let name := strings.TrimSpace name in
    if (name =? "")%string then (r, Some "budget name cannot be empty")
    else if internal.IsTypedNil (asAny b) then (r, Some "budget cannot be nil")
    else
      let m0 := match m reg with
                | None => fun _ => None
                | Some m0 => m0
                end in
      (Some (mkRegistry
               (Some (fun n => if (n =? name)%string then Some b else m0 n))),
       None)
  end.

(** [Register] ignores the error. *)
Definition Register (r : option Registry) (name : string) (b : Budget)
  : option Registry :=
  fst (RegisterE r name b).

(** [MustRegister]: the registry after the call, or the panic message. *)
Definition MustRegister (r : option Registry) (name : string) (b : Budget)
  : option Registry + string :=
  match RegisterE r name b with
  | (_, Some err) => inr ("budget.Registry.MustRegister: " ++ err)%string
  | (r', None) => inl r'
  end.

Definition Get (r : option Registry) (name : string) : Budget * bool :=
  match r with
  | None => (NilBudget, false)
  | Some reg =>
    let name := strings.TrimSpace name in
    if (name =? "")%string then (NilBudget, false)
    else
      let '(b, ok) :=
        match m reg with
        | None => (NilBudget, false)
        | Some m0 =>
          match m0 name with
          | Some b => (b, true)
          | None => (NilBudget, false)
          end
        end in
      (b, ok && notNil b)
  end.

End budget.

(** ** package classify *)

Module classify.

(** Modelled from the spec: [Outcome] and [OutcomeKind] are declared in
    package classify outside src/.  The spec gives
    [Kind ∈ {Success, Retryable, NonRetryable, Abort}], a reason, attributes
    and a backoff override; [OutcomeUnknown] stands for the zero value of
    the kind. *)
Inductive OutcomeKind :=
  | OutcomeUnknown
  | OutcomeSuccess
  | OutcomeRetryable
  | OutcomeNonRetryable
  | OutcomeAbort.

Record Outcome := mkOutcome {
  Kind : OutcomeKind;
  Reason : string;
  Attributes : list (string * string);
  BackoffOverride : time.Duration
}.

Definition OutcomeKind_eqb (a b : OutcomeKind) : bool :=
  match a, b with
  | OutcomeUnknown, OutcomeUnknown
  | OutcomeSuccess, OutcomeSuccess
  | OutcomeRetryable, OutcomeRetryable
  | OutcomeNonRetryable, OutcomeNonRetryable
  | OutcomeAbort, OutcomeAbort => true
  | _, _ => false
  end.

End classify.

(** ** package observe *)

Module observe.

Definition error := option string.

Record AttemptRecord := mkAttemptRecord {
  Attempt : Z;
  StartTime : time.Time;
  EndTime : time.Time;
  IsHedge : bool;
  HedgeIndex : Z;
  Outcome : classify.Outcome;
  Err : error;
  Backoff : time.Duration;
  BudgetAllowed : bool;
  BudgetReason : string
}.

(** The fields the coordinator and the tests of package observe set. *)
Record AttemptInfo := mkAttemptInfo {
  info_RetryIndex : Z;
  info_Attempt : Z;
  info_IsHedge : bool;
  info_HedgeIndex : Z;
  info_PolicyID : string
}.

End observe.

(** ** package retry: the retry-group coordinator

    [doRetryGroup] starts one goroutine per attempt, a spawner goroutine
    for the hedges, and then waits on a [select].  Each of the three is
    embedded as a function of what the scheduler and the collaborators
    hand to it:
    - an attempt goroutine is run against an [AttemptEnv] (the clock
      readings it takes and the answers of the budget gate, of [op] and of
      the classifier) and yields the trace of its effects in program order;
    - the spawner consumes the sequence of cases its [select] takes;
    - the coordinator loop consumes the sequence of cases its [select]
      takes, each received result together with the value
      [activeAttempts.Load()] returns after it. *)

Module retry.

Import policy.

Definition error := option string.

Section DoRetryGroup.

(** The values [op] returns; [any] adds the nil of the Go interface. *)
Variable V : Type.
Definition any := option V.

Record groupResult := mkGroupResult {
  val : any;
  err : error;
  outcome : classify.Outcome;
  start : time.Time;
  end_ : time.Time;
  isHedge : bool;
  idx : Z;
  panicErr : error
}.

(** The zero value of [classify.Outcome] and of [groupResult]. *)
Definition zeroOutcome : classify.Outcome :=
  classify.mkOutcome classify.OutcomeUnknown "" [] 0.
Definition zeroGroupResult : groupResult :=
  mkGroupResult None None zeroOutcome 0 0 false 0 None.

(** What one attempt goroutine sees of its collaborators.
    - [clock n] is the n-th reading of [e.clock()] the goroutine takes;
    - [allowAttempt] is [e.allowAttempt] (declared outside src/), without
      its context argument;
    - [op] is the user operation, a function of the [AttemptInfo] attached
      to the context it is called with;
    - [classify] is [classifyWithRecovery] followed by
      [annotateClassifierFallback] (both declared outside src/): the
      outcome and the recovered panic, if any. *)
Record AttemptEnv := mkAttemptEnv {
  clock : nat -> time.Time;
  allowAttempt : PolicyKey.t -> BudgetRef.t -> Z -> budget.AttemptKind
                 -> budget.Decision * bool;
  op : observe.AttemptInfo -> any * error;
  classify : any -> error -> classify.Outcome * error
}.

(** The observable effects of an attempt goroutine. *)
Inductive Effect :=
  | AllowAttempt (key : PolicyKey.t) (ref : BudgetRef.t) (attemptIdx : Z)
      (kind : budget.AttemptKind)
  | RecordAttempt (rec : observe.AttemptRecord)
  | OnHedgeSpawn (rec : observe.AttemptRecord)
  | CallOp (info : observe.AttemptInfo)
  | Send (res : groupResult)
  | Release (handle : nat)
  | Done.

Variable key : PolicyKey.t.
Variable pol : EffectivePolicy.

(** The local [maxHedges] of [doRetryGroup]. *)
Definition maxHedges : Z :=
  if HedgePolicy.Enabled (Hedge pol) then HedgePolicy.MaxHedges (Hedge pol) else 0.

(** The goroutine of the closure [launch(idx, isHedge)], for the retry
    group [retryIdx].  [launch] itself increments [activeAttempts] and
    [attemptsLaunched]; the deferred decrement is [Done]. *)
Definition launch (retryIdx : Z) (lastBackoff : time.Duration)
    (env : AttemptEnv) (idx : Z) (isHedge : bool) : list Effect :=
  let start := clock env 0%nat in
  let budgetKind := if isHedge then budget.KindHedge else budget.KindRetry in
  let budgetRef :=
    if isHedge then HedgePolicy.Budget (Hedge pol)
    else RetryPolicy.Budget (Retry pol) in
  let '(decision, allowed) := allowAttempt env key budgetRef retryIdx budgetKind in
  AllowAttempt key budgetRef retryIdx budgetKind ::
  if negb allowed then
    let rec :=
      observe.mkAttemptRecord retryIdx start (clock env 1%nat) isHedge idx
        (classify.mkOutcome classify.OutcomeAbort (budget.Reason decision) [] 0)
        None
        (if isHedge then 0 else lastBackoff)
        false (budget.Reason decision) in
    [ RecordAttempt rec;
      Send (mkGroupResult None (Some (budget.Reason decision))
              (classify.mkOutcome classify.OutcomeAbort (budget.Reason decision) [] 0)
              start (clock env 2%nat) isHedge idx None);
      Done ]
  else
    let info := observe.mkAttemptInfo retryIdx retryIdx isHedge idx (ID pol) in
    let spawn :=
      if isHedge
      then [ OnHedgeSpawn
               (observe.mkAttemptRecord retryIdx 0 0 true idx zeroOutcome None 0
                  false "") ]
      else [] in
    let '(val, err) := op env info in
    let end_ := clock env 1%nat in
    let '(outcome, panicErr) := classify env val err in
    let rec :=
      observe.mkAttemptRecord retryIdx start end_ isHedge idx outcome err
        (if isHedge then 0 else lastBackoff)
        true (budget.Reason decision) in
    let res := mkGroupResult val err outcome start end_ isHedge idx panicErr in
    spawn ++ [ CallOp info; RecordAttempt rec; Send res ]
      ++ match budget.Release decision with
         | Some handle => [ Release handle ]
         | None => []
         end
      ++ [ Done ].

(** *** The hedge spawner *)

(** The cases the [select] of the spawner takes: [groupCtx.Done()] or a
    tick, with the reading of [e.clock()] taken at that tick. *)
Inductive SpawnerEvent :=
  | GroupDone
  | Tick (now : time.Time).

Inductive SpawnerEffect :=
  | Launch (idx : Z) (isHedge : bool)
  | TickerReset (d : time.Duration).

(** The [for { select { ... } }] of the spawner, from [hedgesLaunched]. *)
Fixpoint spawnerLoop (trig : hedge.Trigger) (start : time.Time)
    (hedgesLaunched : Z) (events : list SpawnerEvent) : list SpawnerEffect :=
  match events with
  | [] => []
  | GroupDone :: _ => []
  | Tick now :: events' =>
    if hedgesLaunched >=? maxHedges then []
    else
      let state :=
        hedge.mkHedgeState 0 start (1 + hedgesLaunched) maxHedges
          (time.Sub now start) in
      let '(should, nextCheck) := trig state in
      let hedgesLaunched := if should then hedgesLaunched + 1 else hedgesLaunched in
      (if should then [ Launch hedgesLaunched true ] else [])
      ++ (if nextCheck >? 0 then [ TickerReset nextCheck ] else [])
      ++ spawnerLoop trig start hedgesLaunched events'
  end.

(** [e.triggers]: [None] when the executor has no registry. *)
Variable triggers : option hedge.Registry.

(** The trigger the spawner uses: the named one when it is registered,
    [FixedDelayTrigger{Delay: pol.Hedge.HedgeDelay}] otherwise. *)
Definition resolveTrigger : hedge.Trigger :=
  let trig :=
    match triggers with
    | Some get =>
      if negb (HedgePolicy.TriggerName (Hedge pol) =? "")%string
      then get (HedgePolicy.TriggerName (Hedge pol))
      else None
    | None => None
    end in
  match trig with
  | Some t => t
  | None =>
    hedge.ShouldSpawnHedge
      (hedge.mkFixedDelayTrigger (HedgePolicy.HedgeDelay (Hedge pol)))
  end.

(** The spawner goroutine. *)
Definition spawner (start : time.Time) (events : list SpawnerEvent)
  : list SpawnerEffect :=
  if negb (HedgePolicy.Enabled (Hedge pol)) then []
  else spawnerLoop resolveTrigger start 0 events.

(** The calls of [launch] of one group, in launch order: the primary,
    then what the spawner launches. *)
Definition launches (start : time.Time) (events : list SpawnerEvent)
  : list (Z * bool) :=
  (0, false)
  :: flat_map (fun e => match e with
                        | Launch idx isHedge => [ (idx, isHedge) ]
                        | TickerReset _ => []
                        end)
       (spawner start events).

(** *** The coordinator loop *)

(** The cases the [select] of the coordinator takes: a result received
    from the channel, with the value [activeAttempts.Load()] returns in
    that iteration, or [ctx.Done()]. *)
Inductive SelectCase :=
  | RecvResult (res : groupResult) (active : Z)
  | CtxDone.

Definition GroupReturn : Type := any * error * classify.Outcome * bool.

(** [ctx.Err()] of the caller's context. *)
Variable ctxErr : error.

(** The [for { select { ... } }] of the coordinator; [None] when the loop
    is still waiting after the given cases. *)
Fixpoint waitLoop (lastRel : groupResult) (failures : Z)
    (cases : list SelectCase) : option GroupReturn :=
  match cases with
  | [] => None
  | CtxDone :: _ =>
    Some (None, ctxErr,
          classify.mkOutcome classify.OutcomeAbort "context_canceled" [] 0, false)
  | RecvResult res active :: cases' =>
    if classify.OutcomeKind_eqb (classify.Kind (outcome res)) classify.OutcomeSuccess
    then Some (val res, None, outcome res, true)
    else
      let lastRel := res in
      let failures := failures + 1 in
      if HedgePolicy.CancelOnFirstTerminal (Hedge pol)
         && (classify.OutcomeKind_eqb (classify.Kind (outcome res))
               classify.OutcomeNonRetryable
             || classify.OutcomeKind_eqb (classify.Kind (outcome res))
                  classify.OutcomeAbort)
      then Some (val res, err res, outcome res, false)
      else if active =? 0
      then Some (val lastRel, err lastRel, outcome lastRel, false)
      else waitLoop lastRel failures cases'
  end.

(** *** What is ready at the coordinator's [select]

    Each time the coordinator reaches its [select] and goes on, it has
    found a result in [results], or [ctx.Done()] closed, or both (with
    neither it blocks).  When both cases can proceed, Go's [select] takes
    one of them at random: [pickCtx] is that choice of the runtime. *)
Inductive Ready :=
  | ResultReady (res : groupResult) (active : Z)
  | CtxReady
  | BothReady (res : groupResult) (active : Z).

(** The caller's [ctx] is done. *)
Definition ctxIsDone (r : Ready) : bool :=
  match r with
  | ResultReady _ _ => false
  | CtxReady | BothReady _ _ => true
  end.

(** A result waits in the channel. *)
Definition resultIsReady (r : Ready) : bool :=
  match r with
  | CtxReady => false
  | ResultReady _ _ | BothReady _ _ => true
  end.

(** The case the [select] takes. *)
Definition selectOf (r : Ready) (pickCtx : bool) : SelectCase :=
  match r with
  | ResultReady res active => RecvResult res active
  | CtxReady => CtxDone
  | BothReady res active => if pickCtx then CtxDone else RecvResult res active
  end.

(** The cases taken along a run of the coordinator. *)
Definition casesOf (run : list (Ready * bool)) : list SelectCase :=
  map (fun s => selectOf (fst s) (snd s)) run.

(** *** One retry group *)

(** A schedule of one group: the environment of each attempt, by hedge
    index, and the cases the two [select]s take. *)
Record GroupSchedule := mkGroupSchedule {
  attemptEnv : Z -> AttemptEnv;
  groupStart : time.Time;
  spawnerEvents : list SpawnerEvent;
  selectCases : list SelectCase
}.

(** What [doRetryGroup] returns under a schedule. *)
Definition doRetryGroup (g : GroupSchedule) : option GroupReturn :=
  waitLoop zeroGroupResult 0 (selectCases g).

(** The effects of the attempts of a group, attempt by attempt in launch
    order. *)
Definition groupEffects (retryIdx : Z) (lastBackoff : time.Duration)
    (g : GroupSchedule) : list Effect :=
  flat_map (fun l => launch retryIdx lastBackoff (attemptEnv g (fst l)) (fst l) (snd l))
    (launches (groupStart g) (spawnerEvents g)).

Definition recordsOf (effects : list Effect) : list observe.AttemptRecord :=
  flat_map (fun e => match e with RecordAttempt rec => [ rec ] | _ => [] end) effects.

Definition sentOf (effects : list Effect) : list groupResult :=
  flat_map (fun e => match e with Send res => [ res ] | _ => [] end) effects.

Definition opCalls (effects : list Effect) : list observe.AttemptInfo :=
  flat_map (fun e => match e with CallOp info => [ info ] | _ => [] end) effects.

(** The records the attempts of a group hand to [recordAttempt]. *)
Definition groupRecords (retryIdx : Z) (lastBackoff : time.Duration)
    (g : GroupSchedule) : list observe.AttemptRecord :=
  recordsOf (groupEffects retryIdx lastBackoff g).

(** *** One call *)

(** Modelled from the spec: the executor's loop over retry groups is
    declared outside src/.  After the spec (section 4.1, step 5, and the
    control flow of section 2) it runs the groups [retryIdx = 0 ..
    MaxAttempts - 1] and goes on to the next group only when the group
    collapsed to a Retryable outcome.  Each schedule comes with the
    backoff slept before its group. *)
Fixpoint callLoop (retryIdx : Z) (groups : list (time.Duration * GroupSchedule))
  : list observe.AttemptRecord :=
  match groups with
  | [] => []
  | (lastBackoff, g) :: groups' =>
    if retryIdx <? RetryPolicy.MaxAttempts (Retry pol) then
      groupRecords retryIdx lastBackoff g ++
      match doRetryGroup g with
      | Some (_, _, o, false) =>
        if classify.OutcomeKind_eqb (classify.Kind o) classify.OutcomeRetryable
        then callLoop (retryIdx + 1) groups'
        else []
      | _ => []
      end
    else []
  end.

Definition callRecords (groups : list (time.Duration * GroupSchedule))
  : list observe.AttemptRecord :=
  callLoop 0 groups.

End DoRetryGroup.

End retry.

(** * Properties *)

(** ** Normalize *)

Section NormalizeProperties.

Import policy.

(** [field] has been recorded as changed. *)
Definition marked (f : string) (p : EffectivePolicy) : Prop :=
  ChangedOf p = true /\ hasField f (ChangedFieldsOf p) = true.

Definition okMaxAttempts p := 1 <= MaxAttemptsOf p <= maxRetryAttempts.
Definition okInitialBackoff p := minBackoffFloor <= InitialBackoffOf p.
Definition okMaxBackoff p :=
  (0 < MaxBackoffOf p <= maxBackoffCeiling /\ InitialBackoffOf p <= MaxBackoffOf p)
  \/ (MaxBackoffOf p = InitialBackoffOf p /\ maxBackoffCeiling < InitialBackoffOf p
      /\ marked "retry.max_backoff" p).
Definition okBackoffMultiplier p :=
  SFeqb (BackoffMultiplierOf p) f64_0 = false
  /\ SFltb (BackoffMultiplierOf p) f64_1 = false
  /\ SFltb maxBackoffMultiplier (BackoffMultiplierOf p) = false.
Definition okJitter p :=
  JitterOf p = JitterNone \/ JitterOf p = JitterFull \/ JitterOf p = JitterEqual.
Definition okTimeoutPerAttempt p :=
  TimeoutPerAttemptOf p = 0 \/ minTimeoutFloor <= TimeoutPerAttemptOf p.
Definition okOverallTimeout p :=
  OverallTimeoutOf p = 0 \/ minTimeoutFloor <= OverallTimeoutOf p.
Definition okRetryCost p := 1 <= RetryCostOf p.
Definition okHedgeCost p := 1 <= HedgeCostOf p.
Definition okMaxHedges p := 1 <= MaxHedgesOf p <= maxHedges.
Definition okHedgeDelay p := minHedgeDelayFloor <= HedgeDelayOf p.
Definition okThreshold p := minCircuitThreshold <= ThresholdOf p.
Definition okCooldown p := minCircuitCooldown <= CooldownOf p.

Definition oks : list (EffectivePolicy -> Prop) :=
  [okMaxAttempts; okInitialBackoff; okMaxBackoff; okBackoffMultiplier; okJitter;
   okTimeoutPerAttempt; okOverallTimeout; okRetryCost; okHedgeCost;
   okMaxHedges; okHedgeDelay; okThreshold; okCooldown].

Fixpoint allOk (l : list (EffectivePolicy -> Prop)) (p : EffectivePolicy) : Prop :=
  match l with
  | [] => True
  | ok :: l' => ok p /\ allOk l' p
  end.

Definition upto (n : nat) (p : EffectivePolicy) : Prop := allOk (firstn n oks) p.

Definition sameFlags (p q : EffectivePolicy) : Prop :=
  HedgeEnabledOf q = HedgeEnabledOf p /\ CircuitEnabledOf q = CircuitEnabledOf p.

Lemma hasField_app f cf l : hasField f cf = true -> hasField f (cf ++ l) = true.
Proof. unfold hasField. intros H. now rewrite existsb_app, H. Qed.

Lemma hasField_app_self f cf : hasField f (cf ++ [f]) = true.
Proof.
  unfold hasField. rewrite existsb_app. simpl. rewrite String.eqb_refl. now rewrite orb_true_r.
Qed.

Arguments withRetry f !p /.
Arguments withHedge f !p /.
Arguments withCircuit f !p /.
Arguments withNormalization f !p /.
Arguments hasField : simpl never.
Ltac scbn := cbn -[SFeqb SFltb hasField].

Lemma f64_consts :
  SFeqb f64_2 f64_0 = false /\ SFltb f64_2 f64_1 = false /\ SFltb f64_10 f64_2 = false /\
  SFeqb f64_1 f64_0 = false /\ SFltb f64_1 f64_1 = false /\ SFltb f64_10 f64_1 = false /\
  SFeqb f64_10 f64_0 = false /\ SFltb f64_10 f64_10 = false.
Proof. repeat split; reflexivity. Qed.

Ltac f64_simpl :=
  destruct f64_consts as (f64c1 & f64c2 & f64c3 & f64c4 & f64c5 & f64c6 & f64c7 & f64c8);
  rewrite ?f64c1, ?f64c2, ?f64c3, ?f64c4, ?f64c5, ?f64c6, ?f64c7, ?f64c8;
  clear f64c1 f64c2 f64c3 f64c4 f64c5 f64c6 f64c7 f64c8.


Ltac dp p := destruct p as [k i [ma ib mb mu j tpa ot cn [bn bc]] [he mh hd tn cft [hbn hbc]] [ce th cd] [src [ch cf]]].

Ltac case_inner :=
  once (match goal with
  | |- context [if ?c then _ else _] =>
      lazymatch c with
      | context [if _ then _ else _] => fail
      | _ => destruct c eqn:?
      end
  end).
Ltac use_hyps := repeat match goal with
  | H : hasField ?f ?l = true |- context [hasField ?f ?l] => rewrite H
  | H : SFeqb ?a ?b = _ |- context [SFeqb ?a ?b] => rewrite H
  | H : SFltb ?a ?b = _ |- context [SFltb ?a ?b] => rewrite H
  end.
Ltac unfset := unfold markChanged, setMaxAttempts, setInitialBackoff, setMaxBackoff,
  setBackoffMultiplier, setJitter, setTimeoutPerAttempt, setOverallTimeout,
  setRetryBudgetCost, setHedgeBudgetCost, setMaxHedges, setHedgeDelay,
  setThreshold, setCooldown.
Ltac simp := rewrite ?hasField_app_self; f64_simpl; use_hyps; scbn.
Ltac cases := cbv zeta; unfset; scbn;
  repeat first [progress simp | case_inner; scbn].
Ltac consts := unfold maxRetryAttempts, maxHedges, minBackoffFloor, minHedgeDelayFloor, maxBackoffCeiling,
  minTimeoutFloor, minCircuitThreshold, minCircuitCooldown, maxBackoffMultiplier, time.Second, time.Millisecond in *.
Ltac fin1 := solve [lia | auto using hasField_app_self, hasField_app | reflexivity | congruence].
Ltac fin0 :=
  first [fin1 | left; repeat split; fin1 | right; repeat split; fin1
        | right; left; fin1 | right; right; fin1 | repeat split; fin1 ].
Ltac fin := rewrite ?hasField_app_self;
  first [ assumption | reflexivity | lia
        | match goal with
          | H : ?A \/ _ |- ?A \/ _ =>
              destruct H as [H | (? & ? & ? & ?)];
              [left; exact H | right; repeat split; fin1]
          end
        | fin0
        | repeat match goal with
                 | H : _ \/ _ |- _ => destruct H
                 | H : _ /\ _ |- _ => destruct H
                 end; fin0 ].
Ltac unfoks := unfold upto, oks, sameFlags, okMaxAttempts, okInitialBackoff, okMaxBackoff, okBackoffMultiplier, okJitter,
   okTimeoutPerAttempt, okOverallTimeout, okRetryCost, okHedgeCost,
   okMaxHedges, okHedgeDelay, okThreshold, okCooldown, marked in *; cbn [firstn allOk] in *.

Ltac spec_tac p := dp p; unfoks; scbn; intros; consts;
  repeat match goal with H : _ /\ _ |- _ => destruct H end;
  cases; repeat split; fin.

Lemma normMaxAttempts_spec p : upto 0 p -> upto 1 (normMaxAttempts p) /\ sameFlags p (normMaxAttempts p).
Proof. unfold normMaxAttempts. spec_tac p. Qed.
Lemma normInitialBackoff_spec p : upto 1 p -> upto 2 (normInitialBackoff p) /\ sameFlags p (normInitialBackoff p).
Proof. unfold normInitialBackoff. spec_tac p. Qed.
Lemma normMaxBackoff_spec p : upto 2 p -> upto 3 (normMaxBackoff p) /\ sameFlags p (normMaxBackoff p).
Proof. unfold normMaxBackoff. spec_tac p. Qed.
Lemma normBackoffMultiplier_spec p : upto 3 p -> upto 4 (normBackoffMultiplier p) /\ sameFlags p (normBackoffMultiplier p).
Proof. unfold normBackoffMultiplier. spec_tac p. Qed.
Lemma normJitter_spec p q : upto 4 p -> normJitter p = Some q -> upto 5 q /\ sameFlags p q.
Proof.
  unfold normJitter. dp p; unfoks; cbn; intros Hp E; consts.
  repeat match goal with H : _ /\ _ |- _ => destruct H end.
  destruct (String.eqb_spec j "").
  - inversion E; subst; clear E. cases; repeat split; fin.
  - destruct ((j =? JitterNone) || (j =? JitterFull) || (j =? JitterEqual))%string eqn:Ej;
      inversion E; subst; clear E.
    rewrite !orb_true_iff, !String.eqb_eq in Ej.
    cbn; repeat split; fin.
Qed.
Lemma normTimeoutPerAttempt_spec p : upto 5 p -> upto 6 (normTimeoutPerAttempt p) /\ sameFlags p (normTimeoutPerAttempt p).
Proof. unfold normTimeoutPerAttempt. spec_tac p. Qed.
Lemma normOverallTimeout_spec p : upto 6 p -> upto 7 (normOverallTimeout p) /\ sameFlags p (normOverallTimeout p).
Proof. unfold normOverallTimeout. spec_tac p. Qed.
Lemma normRetryBudgetCost_spec p : upto 7 p -> upto 8 (normRetryBudgetCost p) /\ sameFlags p (normRetryBudgetCost p).
Proof. unfold normRetryBudgetCost. spec_tac p. Qed.
Lemma normHedgeBudgetCost_spec p : upto 8 p -> upto 9 (normHedgeBudgetCost p) /\ sameFlags p (normHedgeBudgetCost p).
Proof. unfold normHedgeBudgetCost. spec_tac p. Qed.
Lemma normMaxHedges_spec p : upto 9 p -> upto 10 (normMaxHedges p) /\ sameFlags p (normMaxHedges p).
Proof. unfold normMaxHedges. spec_tac p. Qed.
Lemma normHedgeDelay_spec p : upto 10 p -> upto 11 (normHedgeDelay p) /\ sameFlags p (normHedgeDelay p).
Proof. unfold normHedgeDelay. spec_tac p. Qed.
Lemma normThreshold_spec p : upto 11 p -> upto 12 (normThreshold p) /\ sameFlags p (normThreshold p).
Proof. unfold normThreshold. spec_tac p. Qed.
Lemma normCooldown_spec p : upto 12 p -> upto 13 (normCooldown p) /\ sameFlags p (normCooldown p).
Proof. unfold normCooldown. spec_tac p. Qed.

Ltac fix_tac p := dp p; unfoks; scbn; intros; consts;
  repeat match goal with
         | H : _ \/ _ |- _ => destruct H
         | H : _ /\ _ |- _ => destruct H
         end; subst;
  cases; try first [reflexivity | exfalso; lia | congruence].

Lemma normMaxAttempts_fix p : okMaxAttempts p -> normMaxAttempts p = p.
Proof. unfold normMaxAttempts. fix_tac p. Qed.
Lemma normInitialBackoff_fix p : okInitialBackoff p -> normInitialBackoff p = p.
Proof. unfold normInitialBackoff. fix_tac p. Qed.
Lemma normMaxBackoff_fix p : okMaxBackoff p -> normMaxBackoff p = p.
Proof. unfold normMaxBackoff. fix_tac p. Qed.
Lemma normBackoffMultiplier_fix p : okBackoffMultiplier p -> normBackoffMultiplier p = p.
Proof. unfold normBackoffMultiplier. fix_tac p. Qed.
Lemma normJitter_fix p : okJitter p -> normJitter p = Some p.
Proof. unfold normJitter. dp p; unfoks; cbn. intros [H | [H | H]]; subst; reflexivity. Qed.
Lemma normTimeoutPerAttempt_fix p : okTimeoutPerAttempt p -> normTimeoutPerAttempt p = p.
Proof. unfold normTimeoutPerAttempt. fix_tac p. Qed.
Lemma normOverallTimeout_fix p : okOverallTimeout p -> normOverallTimeout p = p.
Proof. unfold normOverallTimeout. fix_tac p. Qed.
Lemma normRetryBudgetCost_fix p : okRetryCost p -> normRetryBudgetCost p = p.
Proof. unfold normRetryBudgetCost. fix_tac p. Qed.
Lemma normHedgeBudgetCost_fix p : okHedgeCost p -> normHedgeBudgetCost p = p.
Proof. unfold normHedgeBudgetCost. fix_tac p. Qed.
Lemma normMaxHedges_fix p : okMaxHedges p -> normMaxHedges p = p.
Proof. unfold normMaxHedges. fix_tac p. Qed.
Lemma normHedgeDelay_fix p : okHedgeDelay p -> normHedgeDelay p = p.
Proof. unfold normHedgeDelay. fix_tac p. Qed.
Lemma normThreshold_fix p : okThreshold p -> normThreshold p = p.
Proof. unfold normThreshold. fix_tac p. Qed.
Lemma normCooldown_fix p : okCooldown p -> normCooldown p = p.
Proof. unfold normCooldown. fix_tac p. Qed.

(** What a successful [Normalize] guarantees of its result. *)
Definition Normalized (q : EffectivePolicy) : Prop :=
  upto 9 q /\
  (HedgeEnabledOf q = true ->
     okMaxHedges q /\ okHedgeDelay q /\
     (CircuitEnabledOf q = true -> okThreshold q /\ okCooldown q)).

Lemma Normalize_Normalized p q : Normalize p = Some q -> Normalized q.
Proof.
  unfold Normalize. cbv zeta.
  destruct (normMaxAttempts_spec p I) as [H1 _].
  destruct (normInitialBackoff_spec _ H1) as [H2 _].
  destruct (normMaxBackoff_spec _ H2) as [H3 _].
  destruct (normBackoffMultiplier_spec _ H3) as [H4 _].
  destruct (normJitter _) as [n5|] eqn:E5; [|discriminate].
  destruct (normJitter_spec _ _ H4 E5) as [H5 _].
  destruct (normTimeoutPerAttempt_spec _ H5) as [H6 _].
  destruct (normOverallTimeout_spec _ H6) as [H7 _].
  destruct (normRetryBudgetCost_spec _ H7) as [H8 _].
  destruct (normHedgeBudgetCost_spec _ H8) as [H9 _].
  set (n9 := normHedgeBudgetCost _) in *.
  destruct (HedgeEnabledOf n9) eqn:He; cbn [negb].
  2: { intros E; inversion E; subst q. split; [exact H9|].
       rewrite He. discriminate. }
  destruct (normMaxHedges_spec _ H9) as [H10 F10].
  destruct (normHedgeDelay_spec _ H10) as [H11 F11].
  set (n11 := normHedgeDelay _) in *.
  destruct (CircuitEnabledOf n11) eqn:Hc; cbn [negb].
  2: { intros E; inversion E; subst q.
       unfold Normalized, upto in *; cbn [firstn oks allOk] in *.
       rewrite Hc. intuition discriminate. }
  destruct (normThreshold_spec _ H11) as [H12 F12].
  destruct (normCooldown_spec _ H12) as [H13 F13].
  intros E; inversion E; subst q.
  unfold Normalized, upto in *; cbn [firstn oks allOk] in *. tauto.
Qed.

Lemma Normalized_fixpoint q : Normalized q -> Normalize q = Some q.
Proof.
  intros [H9 Hh]. unfold upto in H9; cbn [firstn oks allOk] in H9.
  destruct H9 as (H1 & H2 & H3 & H4 & H5 & H6 & H7 & H8 & H9 & _).
  unfold Normalize. cbv zeta.
  rewrite (normMaxAttempts_fix _ H1), (normInitialBackoff_fix _ H2),
    (normMaxBackoff_fix _ H3), (normBackoffMultiplier_fix _ H4),
    (normJitter_fix _ H5), (normTimeoutPerAttempt_fix _ H6),
    (normOverallTimeout_fix _ H7), (normRetryBudgetCost_fix _ H8),
    (normHedgeBudgetCost_fix _ H9).
  destruct (HedgeEnabledOf q) eqn:He; cbn [negb]; [|reflexivity].
  destruct (Hh eq_refl) as (H10 & H11 & Hc).
  rewrite (normMaxHedges_fix _ H10), (normHedgeDelay_fix _ H11).
  destruct (CircuitEnabledOf q) eqn:Hce; cbn [negb]; [|reflexivity].
  destruct (Hc eq_refl) as (H12 & H13).
  now rewrite (normThreshold_fix _ H12), (normCooldown_fix _ H13).
Qed.

(** C6. [Normalize] is idempotent: when [Normalize p] succeeds with [q],
    [Normalize q] succeeds with [q] itself.  The equality is that of the
    whole policy, [Meta.Normalization] included, so the recorded change
    flag and field paths are those of the first normalization. *)
Theorem Normalize_idempotent p q : Normalize p = Some q -> Normalize q = Some q.
Proof. intros H. apply Normalized_fixpoint. exact (Normalize_Normalized _ _ H). Qed.

(** A policy that needs every kind of repair: defaults, clamps, the
    backoff ceiling, hedging and circuit fields. *)
Definition untidyPolicy : EffectivePolicy :=
  mkEffectivePolicy (PolicyKey.mk "svc" "Method") "v1"
    (RetryPolicy.mk 50 (60 * time.Second) 0 f64_0 "" (-5) 17 ""
       (BudgetRef.mk "global" 0))
    (HedgePolicy.mk true 9 1 "" false (BudgetRef.mk "" (-2)))
    (CircuitPolicy.mk true 0 5)
    (Metadata.mk PolicySourceStatic (NormalizationInfo.mk false [])).

Definition untidyNormalized : EffectivePolicy :=
  Eval vm_compute in
  match Normalize untidyPolicy with
  | Some q => q
  | None => untidyPolicy
  end.

Lemma Normalize_idempotent_witness :
  Normalize untidyPolicy = Some untidyNormalized
  /\ Normalize untidyNormalized = Some untidyNormalized.
Proof.
  split; [vm_compute; reflexivity|].
  apply (Normalize_idempotent untidyPolicy). vm_compute. reflexivity.
Defined.

End NormalizeProperties.

(** ** The guardrails, and the policy constructors *)

Section PolicyProperties.

Import policy.

Lemma SFcompare_antisym x y :
  SFcompare y x = option_map CompOpp (SFcompare x y).
Proof.
  destruct x as [sx|sx| |sx mx ex], y as [sy|sy| |sy my ey]; cbn;
    try reflexivity; try (destruct sx; reflexivity); try (destruct sy; reflexivity);
    try (destruct sx, sy; reflexivity).
  destruct sx, sy; try reflexivity; f_equal;
    rewrite (Z.compare_antisym ey ex);
    destruct (ey ?= ex)%Z; cbn; try reflexivity;
    rewrite (Pos.compare_cont_antisym mx my Eq); reflexivity.
Qed.

Definition isNaN (x : float64) : bool :=
  match x with S754_nan => true | _ => false end.

Lemma SFltb_false_SFleb x y :
  isNaN x = false -> isNaN y = false -> SFltb x y = false -> SFleb y x = true.
Proof.
  unfold SFltb, SFleb. rewrite (SFcompare_antisym x y).
  destruct x, y; try discriminate; intros _ _;
    destruct (SFcompare _ _) as [[| |]|] eqn:E; cbn; try reflexivity; try discriminate.
  all: cbn in E; try discriminate; try (destruct s; discriminate); try (destruct s0; discriminate).
Qed.

(** The guardrails a successful [Normalize] does establish. *)
Lemma Normalize_guardrails p q :
  Normalize p = Some q ->
  1 <= MaxAttemptsOf q <= 10
  /\ 1 * time.Millisecond <= InitialBackoffOf q
  /\ InitialBackoffOf q <= MaxBackoffOf q
  /\ (MaxBackoffOf q <= 30 * time.Second
      \/ (30 * time.Second < InitialBackoffOf q /\ MaxBackoffOf q = InitialBackoffOf q))
  /\ (isNaN (BackoffMultiplierOf q) = false ->
      SFleb f64_1 (BackoffMultiplierOf q) = true
      /\ SFleb (BackoffMultiplierOf q) f64_10 = true)
  /\ (HedgeEnabledOf q = true -> 1 <= MaxHedgesOf q <= 3).
Proof.
  intros H. apply Normalize_Normalized in H. destruct H as [H9 Hh].
  unfold upto in H9; cbn [firstn oks allOk] in H9.
  destruct H9 as (H1 & H2 & H3 & H4 & _).
  unfold okMaxAttempts, okInitialBackoff, okMaxBackoff, okBackoffMultiplier,
    maxRetryAttempts, minBackoffFloor, maxBackoffCeiling, maxBackoffMultiplier in *.
  split; [lia|]. split; [lia|]. split; [lia|]. split; [lia|]. split.
  - intros Hnan. split; apply SFltb_false_SFleb; first [assumption|reflexivity|tauto].
  - intros He. destruct (Hh He) as [Hm _]. unfold okMaxHedges, maxHedges in Hm. lia.
Qed.

Definition demoKey : PolicyKey.t := PolicyKey.mk "svc" "Method".

(** The default policy with [InitialBackoff(60 * time.Second)]. *)
Definition slowStart : EffectivePolicy :=
  InitialBackoff (60 * time.Second) (DefaultPolicyFor demoKey).

(** C5. The guardrail [Retry.MaxBackoff <= 30 s] does not hold of every
    successful [Normalize]: for the default policy with an initial backoff
    of one minute, [Normalize] succeeds and returns [MaxBackoff = 60 s],
    above [maxBackoffCeiling]. *)
Theorem Normalize_MaxBackoff_exceeds_ceiling :
  exists q, Normalize slowStart = Some q
    /\ InitialBackoffOf q = 60 * time.Second
    /\ MaxBackoffOf q = 60 * time.Second
    /\ maxBackoffCeiling < MaxBackoffOf q.
Proof. eexists. split; [vm_compute; reflexivity|]. repeat split; reflexivity. Qed.

(** A NaN multiplier passes the three comparisons of [Normalize]
    unchanged. *)
Lemma Normalize_keeps_NaN :
  exists q, Normalize (BackoffMultiplier S754_nan (DefaultPolicyFor demoKey)) = Some q
    /\ BackoffMultiplierOf q = S754_nan
    /\ SFleb f64_1 (BackoffMultiplierOf q) = false.
Proof. eexists. split; [vm_compute; reflexivity|]. split; reflexivity. Qed.

Lemma Normalize_default key : Normalize (DefaultPolicyFor key) = Some (DefaultPolicyFor key).
Proof. reflexivity. Qed.

Lemma Normalized_nonzero q : Normalized q -> q <> zeroEffectivePolicy.
Proof.
  intros [H _] ->. unfold upto in H; cbn [firstn oks allOk] in H.
  destruct H as [H _]. unfold okMaxAttempts in H. cbn in H. lia.
Qed.

Definition applyOptions (opts : list Option) (p : EffectivePolicy) : EffectivePolicy :=
  fold_left (fun p opt => opt p) opts p.

(** [r] is what the constructors promise for [key] and [opts]: a fixed
    point of [Normalize], not the zero policy, the normalization of the
    default policy with the options applied when that succeeds, and the
    normalized default policy of [key] when it fails. *)
Definition builtFrom (key : PolicyKey.t) (opts : list Option) (r : EffectivePolicy)
  : Prop :=
  Normalize r = Some r
  /\ r <> zeroEffectivePolicy
  /\ (forall q, Normalize (applyOptions opts (DefaultPolicyFor key)) = Some q -> r = q)
  /\ (Normalize (applyOptions opts (DefaultPolicyFor key)) = None ->
        Some r = Normalize (DefaultPolicyFor key) /\ r = DefaultPolicyFor key).

Lemma NewFromKey_builtFrom key opts : builtFrom key opts (NewFromKey key opts).
Proof.
  assert (Hn : Normalized (NewFromKey key opts)).
  { unfold NewFromKey. cbv zeta.
    destruct (Normalize (fold_left (fun p opt => opt p) opts (DefaultPolicyFor key)))
      as [q|] eqn:E.
    - exact (Normalize_Normalized _ _ E).
    - rewrite Normalize_default. exact (Normalize_Normalized _ _ (Normalize_default key)). }
  split; [now apply Normalized_fixpoint|].
  split; [now apply Normalized_nonzero|].
  unfold NewFromKey, applyOptions. cbv zeta. split.
  - intros q ->. reflexivity.
  - intros ->. rewrite Normalize_default. split; reflexivity.
Qed.

(** C9. For every key and every list of options, [NewFromKey] and [New]
    return a normalized, non-zero policy; when normalizing the default
    policy with the options applied fails, the result is the normalized
    default policy of the key, so that every option is discarded. *)
Theorem New_normalized_or_default (key : PolicyKey.t) (s : string) (opts : list Option) :
  builtFrom key opts (NewFromKey key opts)
  /\ builtFrom (ParseKey s) opts (New s opts).
Proof. split; [apply NewFromKey_builtFrom|apply NewFromKey_builtFrom]. Qed.

(** An invalid jitter after two valid options. *)
Definition badOptions : list Option :=
  [ MaxAttempts 7; InitialBackoff (50 * time.Millisecond); Jitter "gaussian" ].

Lemma New_normalized_or_default_witness :
  Normalize (applyOptions badOptions (DefaultPolicyFor demoKey)) = None
  /\ NewFromKey demoKey badOptions = DefaultPolicyFor demoKey
  /\ MaxAttemptsOf (New "svc.Method" badOptions) = 3.
Proof.
  assert (E : Normalize (applyOptions badOptions (DefaultPolicyFor demoKey)) = None)
    by (vm_compute; reflexivity).
  split; [exact E|].
  destruct (New_normalized_or_default demoKey "svc.Method" badOptions)
    as [(_ & _ & _ & Hk) (_ & _ & _ & Hs)].
  split.
  - destruct (Hk E) as [_ H]. exact H.
  - assert (E' : Normalize (applyOptions badOptions
                              (DefaultPolicyFor (ParseKey "svc.Method"))) = None)
      by (vm_compute; reflexivity).
    destruct (Hs E') as [_ H]. rewrite H. reflexivity.
Defined.

End PolicyProperties.

(** ** Policy keys *)

Section KeyProperties.

Import policy strings.

Definition dot : ascii := ".".

Lemma stripPrefix_length w s r :
  stripPrefix w s = Some r -> List.length s = (List.length w + List.length r)%nat.
Proof.
  revert s; induction w as [|c w IH]; intros [|d s]; simpl; intros H;
    try congruence.
  - inversion H; reflexivity.
  - inversion H; reflexivity.
  - destruct (Ascii.eqb c d); [|discriminate]. now rewrite (IH _ H).
Qed.

Lemma stripPrefix_app_dot w a b :
  ~ In dot w -> stripPrefix w a = None -> stripPrefix w (a ++ dot :: b) = None.
Proof.
  revert a; induction w as [|c w IH]; intros a Hw H.
  - destruct a; discriminate.
  - destruct a as [|d a]; simpl in *.
    + destruct (Ascii.eqb_spec c dot); [|reflexivity]. subst. tauto.
    + destruct (Ascii.eqb c d); [|reflexivity]. apply IH; tauto.
Qed.

Lemma stripAny_app_dot enc a b :
  (forall w, In w enc -> ~ In dot w) ->
  stripAny enc a = None -> stripAny enc (a ++ dot :: b) = None.
Proof.
  induction enc as [|w enc IH]; simpl; intros Henc H; [reflexivity|].
  destruct (stripPrefix w a) eqn:E; [discriminate|].
  rewrite stripPrefix_app_dot; auto.
Qed.

Lemma stripAny_length enc s r :
  (forall w, In w enc -> w <> []) ->
  stripAny enc s = Some r -> (List.length r < List.length s)%nat.
Proof.
  induction enc as [|w enc IH]; simpl; intros Henc H; [discriminate|].
  destruct (stripPrefix w s) eqn:E.
  - inversion H; subst. apply stripPrefix_length in E.
    assert (w <> []) by auto. destruct w; [congruence|]. simpl in E. lia.
  - apply IH; auto.
Qed.

Lemma trimFront_length enc fuel s :
  (forall w, In w enc -> w <> []) ->
  (List.length (trimFront enc fuel s) <= List.length s)%nat.
Proof.
  intros Henc. revert s; induction fuel as [|fuel IH]; intros s; simpl; [lia|].
  destruct (stripAny enc s) eqn:E; [|lia].
  apply stripAny_length in E; auto. specialize (IH l). lia.
Qed.

Lemma trimFront_none enc fuel s : stripAny enc s = None -> trimFront enc fuel s = s.
Proof. destruct fuel; simpl; intros H; [reflexivity|now rewrite H]. Qed.

Lemma trimFront_fixed enc fuel s :
  (forall w, In w enc -> w <> []) ->
  (List.length s <= List.length (trimFront enc (S fuel) s))%nat -> stripAny enc s = None.
Proof.
  intros Henc H. simpl in H. destruct (stripAny enc s) eqn:E; [|reflexivity].
  pose proof (stripAny_length _ _ _ Henc E).
  pose proof (trimFront_length enc fuel l Henc). lia.
Qed.

Lemma spaceEncodings_nonempty w : In w spaceEncodings -> w <> [].
Proof.
  intros H. assert (forallb (fun w => negb (Nat.eqb (List.length w) 0)) spaceEncodings = true) as F by reflexivity.
  rewrite forallb_forall in F. specialize (F _ H). destruct w; [discriminate|congruence].
Qed.

Lemma spaceEncodings_nodot w : In w spaceEncodings -> ~ In dot w.
Proof.
  intros H. assert (forallb (fun w => negb (existsb (Ascii.eqb dot) w)) spaceEncodings = true) as F by reflexivity.
  rewrite forallb_forall in F. specialize (F _ H). intros Hin.
  rewrite negb_true_iff in F. assert (existsb (Ascii.eqb dot) w = true); [|congruence].
  apply existsb_exists. exists dot. split; [assumption|apply Ascii.eqb_refl].
Qed.

Lemma revEncodings_nonempty w : In w (map (@rev ascii) spaceEncodings) -> w <> [].
Proof.
  rewrite in_map_iff. intros (v & <- & Hv) E. apply spaceEncodings_nonempty in Hv.
  apply Hv. rewrite <- (rev_involutive v), E. reflexivity.
Qed.

Lemma revEncodings_nodot w : In w (map (@rev ascii) spaceEncodings) -> ~ In dot w.
Proof.
  rewrite in_map_iff. intros (v & <- & Hv) Hin. apply spaceEncodings_nodot in Hv.
  apply Hv. now apply in_rev.
Qed.

(** [s] carries no leading and no trailing white space. *)
Definition trimmed (s : list ascii) : Prop :=
  stripAny spaceEncodings s = None /\ stripAny (map (@rev ascii) spaceEncodings) (rev s) = None.

Lemma trimmed_trim s : trimmed s -> trimRightSpace (trimLeftSpace s) = s.
Proof.
  intros [Hl Hr]. unfold trimLeftSpace, trimRightSpace.
  rewrite (trimFront_none _ _ _ Hl), (trimFront_none _ _ _ Hr). apply rev_involutive.
Qed.

Lemma trim_trimmed s : trimRightSpace (trimLeftSpace s) = s -> trimmed s.
Proof.
  intros H. unfold trimLeftSpace, trimRightSpace in H.
  assert (Hlen := f_equal (@List.length ascii) H). rewrite length_rev in Hlen.
  pose proof (trimFront_length spaceEncodings (List.length s) s spaceEncodings_nonempty) as L1.
  set (t := trimFront spaceEncodings (List.length s) s) in *.
  pose proof (trimFront_length (map (@rev ascii) spaceEncodings) (List.length t) (rev t)
                revEncodings_nonempty) as L2.
  rewrite length_rev in L2.
  destruct s as [|c s]; [split; reflexivity|].
  assert (Hs : stripAny spaceEncodings (c :: s) = None).
  { apply trimFront_fixed with (fuel := List.length s); [apply spaceEncodings_nonempty|].
    change (List.length (c :: s) <= List.length t)%nat. lia. }
  assert (Ht : t = c :: s) by (unfold t; apply trimFront_none, Hs).
  split; [exact Hs|]. rewrite Ht in Hlen. cbn [List.length] in Hlen.
  apply trimFront_fixed with (fuel := List.length s); [apply revEncodings_nonempty|].
  rewrite Hlen, length_rev. cbn [List.length]. lia.
Qed.

Lemma trimmed_join a b : trimmed a -> trimmed b -> trimmed (a ++ dot :: b).
Proof.
  intros [Ha _] [_ Hb]. split.
  - apply stripAny_app_dot; auto using spaceEncodings_nodot.
  - rewrite rev_app_distr. cbn [rev]. rewrite <- app_assoc. cbn [app].
    apply stripAny_app_dot; auto using revEncodings_nodot.
Qed.

Lemma list_ascii_of_string_app a b :
  list_ascii_of_string (a ++ b)%string = list_ascii_of_string a ++ list_ascii_of_string b.
Proof. induction a as [|c a IH]; simpl; [reflexivity|now rewrite IH]. Qed.

Lemma TrimSpace_trimmed s :
  TrimSpace s = s <-> trimmed (list_ascii_of_string s).
Proof.
  unfold TrimSpace. split; intros H.
  - apply trim_trimmed. apply (f_equal list_ascii_of_string) in H.
    now rewrite list_ascii_of_string_of_list_ascii in H.
  - rewrite (trimmed_trim _ H). apply string_of_list_ascii_of_string.
Qed.

Lemma TrimSpace_join ns name :
  TrimSpace ns = ns -> TrimSpace name = name ->
  TrimSpace (ns ++ String "." name)%string = (ns ++ String "." name)%string.
Proof.
  rewrite !TrimSpace_trimmed. intros Hns Hname.
  rewrite list_ascii_of_string_app. cbn [list_ascii_of_string]. now apply trimmed_join.
Qed.

Lemma IndexByte_bounds s c : -1 <= IndexByte s c.
Proof.
  induction s as [|d s IH]; simpl; [lia|].
  destruct (Ascii.eqb d c); [lia|]. destruct (IndexByte s c <? 0) eqn:E; lia.
Qed.

Lemma IndexByte_app_absent a b c :
  IndexByte a c = -1 -> IndexByte (a ++ String c b)%string c = Z.of_nat (String.length a).
Proof.
  induction a as [|d a IH]; simpl; intros H.
  - now rewrite Ascii.eqb_refl.
  - destruct (Ascii.eqb d c); [discriminate|].
    destruct (IndexByte a c <? 0) eqn:E.
    + assert (IndexByte a c = -1) as Ha by (pose proof (IndexByte_bounds a c); lia).
      rewrite (IH Ha). destruct (Z.of_nat (String.length a) <? 0) eqn:E'; lia.
    + pose proof (IndexByte_bounds a c). lia.
Qed.

Lemma sliceTo_app a b : sliceTo (a ++ b)%string (Z.of_nat (String.length a)) = a.
Proof.
  unfold sliceTo. rewrite Nat2Z.id. induction a as [|c a IH]; simpl.
  - destruct b; reflexivity.
  - now rewrite IH.
Qed.

Lemma substring_all s : substring 0 (String.length s) s = s.
Proof. induction s as [|c s IH]; simpl; [reflexivity|now rewrite IH]. Qed.

Lemma sliceFrom_app a c b :
  sliceFrom (a ++ String c b)%string (Z.of_nat (String.length a) + 1) = b.
Proof.
  unfold sliceFrom. replace (Z.to_nat (Z.of_nat (String.length a) + 1)) with (S (String.length a)) by lia.
  induction a as [|d a IH]; simpl.
  - rewrite Nat.sub_0_r. apply substring_all.
  - exact IH.
Qed.

Lemma ParseKey_String k :
  PolicyKey.Namespace k <> "" -> PolicyKey.Name k <> "" ->
  TrimSpace (PolicyKey.Namespace k) = PolicyKey.Namespace k ->
  TrimSpace (PolicyKey.Name k) = PolicyKey.Name k ->
  IndexByte (PolicyKey.Namespace k) "." = -1 ->
  ParseKey (PolicyKey_String k) = k.
Proof.
  destruct k as [ns name]; cbn [PolicyKey.Namespace PolicyKey.Name].
  intros Hns Hname Tns Tname Hdot.
  unfold PolicyKey_String; cbn [PolicyKey.Namespace PolicyKey.Name].
  destruct (String.eqb_spec ns ""); [contradiction|].
  destruct (String.eqb_spec name ""); [contradiction|].
  change ("." ++ name)%string with (String "." name).
  unfold ParseKey. cbv zeta. rewrite (TrimSpace_join _ _ Tns Tname).
  destruct (String.eqb_spec (ns ++ String "." name) "") as [E|_].
  { destruct ns; discriminate. }
  rewrite (IndexByte_app_absent ns name "." Hdot).
  destruct (Z.of_nat (String.length ns) <? 0) eqn:E; [lia|].
  rewrite sliceTo_app, sliceFrom_app, Tns, Tname.
  destruct (String.eqb_spec name ""); [contradiction|reflexivity].
Qed.

Lemma ParseKey_no_dot s :
  s <> "" -> TrimSpace s = s -> IndexByte s "." = -1 ->
  ParseKey s = PolicyKey.mk "" s.
Proof.
  intros Hs Ts Hdot. unfold ParseKey. cbv zeta. rewrite Ts.
  destruct (String.eqb_spec s ""); [contradiction|]. now rewrite Hdot.
Qed.

(** C10. [ParseKey] inverts [PolicyKey.String] on canonical keys: when
    the namespace and the name of [k] are not empty, are left unchanged by
    [TrimSpace], and the namespace holds no dot, [ParseKey (k.String())] is
    [k] (the name may hold dots: only the first dot splits); and a
    non-empty string [s] without a dot that [TrimSpace] leaves unchanged
    parses to the key with an empty namespace and the name [s]. *)
Theorem ParseKey_String_roundtrip (k : PolicyKey.t) (s : string) :
  (PolicyKey.Namespace k <> "" -> PolicyKey.Name k <> "" ->
   TrimSpace (PolicyKey.Namespace k) = PolicyKey.Namespace k ->
   TrimSpace (PolicyKey.Name k) = PolicyKey.Name k ->
   IndexByte (PolicyKey.Namespace k) "." = -1 ->
   ParseKey (PolicyKey_String k) = k)
  /\ (s <> "" -> TrimSpace s = s -> IndexByte s "." = -1 ->
      ParseKey s = PolicyKey.mk "" s).
Proof. split; [apply ParseKey_String|apply ParseKey_no_dot]. Qed.

Lemma ParseKey_String_roundtrip_witness :
  PolicyKey_String (PolicyKey.mk "billing" "Charge.v2") = "billing.Charge.v2"
  /\ ParseKey "billing.Charge.v2" = PolicyKey.mk "billing" "Charge.v2"
  /\ ParseKey "healthz" = PolicyKey.mk "" "healthz".
Proof.
  destruct (ParseKey_String_roundtrip (PolicyKey.mk "billing" "Charge.v2") "healthz")
    as [Hk Hs].
  split; [reflexivity|]. split.
  - apply Hk; [discriminate | discriminate | | | ]; vm_compute; reflexivity.
  - apply Hs; [discriminate | | ]; vm_compute; reflexivity.
Defined.

End KeyProperties.

(** ** The retry group *)

Section RetryGroupProperties.

Import policy retry.

Variable V : Type.
Variable key : PolicyKey.t.
Variable pol : EffectivePolicy.
Variable triggers : option hedge.Registry.
Variable ctxErr : error.

(** Number of hedges a spawner trace launches. *)
Definition hedgeCount (effects : list SpawnerEffect) : nat :=
  List.length (filter (fun e => match e with Launch _ _ => true | _ => false end) effects).

Lemma hedgeCount_app a b : hedgeCount (a ++ b) = (hedgeCount a + hedgeCount b)%nat.
Proof. unfold hedgeCount. now rewrite filter_app, length_app. Qed.

Lemma spawnerLoop_bound trig start events : forall h,
  h <= maxHedges pol ->
  Z.of_nat (hedgeCount (spawnerLoop pol trig start h events)) <= maxHedges pol - h.
Proof.
  induction events as [|e events IH]; intros h Hh; simpl.
  - cbn. lia.
  - destruct e as [|now]; [cbn; lia|].
    destruct (h >=? maxHedges pol) eqn:E; [cbn; lia|].
    destruct (trig _) as [should nextCheck].
    rewrite !hedgeCount_app.
    destruct should.
    + specialize (IH (h + 1) ltac:(lia)).
      destruct (nextCheck >? 0); cbn in *; lia.
    + specialize (IH h Hh).
      destruct (nextCheck >? 0); cbn in *; lia.
Qed.

Lemma launches_length start events :
  List.length (launches pol triggers start events)
  = S (hedgeCount (spawner pol triggers start events)).
Proof.
  unfold launches. cbn [List.length]. f_equal. unfold hedgeCount.
  induction (spawner pol triggers start events) as [|e l IH]; [reflexivity|].
  destruct e; cbn; now rewrite IH.
Qed.

Lemma launches_bound start events :
  0 <= maxHedges pol ->
  Z.of_nat (List.length (launches pol triggers start events)) <= 1 + maxHedges pol.
Proof.
  intros H. rewrite launches_length. unfold spawner.
  destruct (HedgePolicy.Enabled (Hedge pol)) eqn:E; cbn [negb].
  - pose proof (spawnerLoop_bound (resolveTrigger pol triggers) start events 0 H).
    rewrite Nat2Z.inj_succ. set (m := maxHedges pol) in *. lia.
  - change (hedgeCount []) with 0%nat. set (m := maxHedges pol) in *. lia.
Qed.

Lemma launches_disabled start events :
  HedgePolicy.Enabled (Hedge pol) = false ->
  launches pol triggers start events = [(0, false)].
Proof. intros H. unfold launches, spawner. now rewrite H. Qed.

Lemma launch_one_record retryIdx lastBackoff env idx isHedge :
  List.length (recordsOf V (launch V key pol retryIdx lastBackoff env idx isHedge)) = 1%nat.
Proof.
  unfold launch. destruct (allowAttempt _ _ _ _ _ _) as [decision allowed].
  destruct allowed; cbn [negb].
  - destruct (op _ _ _) as [v e]. destruct (classify _ _ _ _) as [o pe].
    destruct isHedge; destruct (budget.Release decision); reflexivity.
  - reflexivity.
Qed.

Lemma recordsOf_app a b : recordsOf V (a ++ b) = recordsOf V a ++ recordsOf V b.
Proof. unfold recordsOf. apply flat_map_app. Qed.

Lemma groupRecords_length retryIdx lastBackoff g :
  List.length (groupRecords V key pol triggers retryIdx lastBackoff g)
  = List.length (launches pol triggers (groupStart V g) (spawnerEvents V g)).
Proof.
  unfold groupRecords, groupEffects.
  induction (launches pol triggers (groupStart V g) (spawnerEvents V g)) as [|l ls IH].
  - reflexivity.
  - cbn [flat_map]. rewrite recordsOf_app, length_app, launch_one_record, IH. reflexivity.
Qed.

Lemma callLoop_bound groups : forall retryIdx,
  0 <= retryIdx -> 0 <= maxHedges pol ->
  retryIdx <= RetryPolicy.MaxAttempts (Retry pol) ->
  Z.of_nat (List.length (callLoop V key pol triggers ctxErr retryIdx groups))
  <= (RetryPolicy.MaxAttempts (Retry pol) - retryIdx) * (1 + maxHedges pol).
Proof.
  induction groups as [|[lastBackoff g] groups IH]; intros r Hr Hm Hle;
    cbn [callLoop].
  - change (Z.of_nat (List.length (@nil observe.AttemptRecord))) with 0.
    set (m := maxHedges pol) in *. nia.
  - destruct (r <? RetryPolicy.MaxAttempts (Retry pol)) eqn:E.
    2: { change (Z.of_nat (List.length (@nil observe.AttemptRecord))) with 0.
         set (m := maxHedges pol) in *. nia. }
    rewrite length_app, groupRecords_length, Nat2Z.inj_add.
    pose proof (launches_bound (groupStart V g) (spawnerEvents V g) Hm) as Hl.
    match goal with
    | |- _ + Z.of_nat (List.length ?rest) <= _ =>
      assert (Z.of_nat (List.length rest)
              <= (RetryPolicy.MaxAttempts (Retry pol) - (r + 1)) * (1 + maxHedges pol))
        as Hrest
    end.
    { assert (0 <= (RetryPolicy.MaxAttempts (Retry pol) - (r + 1)) * (1 + maxHedges pol))
        as Hnn by (set (m := maxHedges pol) in *; nia).
      destruct (doRetryGroup V pol ctxErr g) as [[[[v e] o] [|]]|]; try exact Hnn.
      destruct (classify.OutcomeKind_eqb _ _); [apply IH; lia|exact Hnn]. }
    set (m := maxHedges pol) in *. nia.
Qed.


(** A received Success ends the group at once with that attempt's value
    and a nil error. *)
Lemma waitLoop_success lastRel failures res active cases :
  classify.Kind (outcome V res) = classify.OutcomeSuccess ->
  waitLoop V pol ctxErr lastRel failures (RecvResult V res active :: cases)
  = Some (val V res, None, outcome V res, true).
Proof. intros H. cbn [waitLoop]. now rewrite H. Qed.

(** Without fail-fast, a failure received while no attempt is active is
    returned as it is: the last result, whatever came before. *)
Lemma waitLoop_last_failure lastRel failures res cases :
  HedgePolicy.CancelOnFirstTerminal (Hedge pol) = false ->
  classify.Kind (outcome V res) <> classify.OutcomeSuccess ->
  waitLoop V pol ctxErr lastRel failures (RecvResult V res 0 :: cases)
  = Some (val V res, err V res, outcome V res, false).
Proof.
  intros Hc H. cbn [waitLoop]. rewrite Hc.
  destruct (classify.Kind (outcome V res)); try reflexivity. congruence.
Qed.

Lemma waitLoop_ctx_done_after pre : forall lastRel failures rest,
  waitLoop V pol ctxErr lastRel failures pre = None ->
  waitLoop V pol ctxErr lastRel failures (pre ++ CtxDone V :: rest)
  = Some (None, ctxErr,
          classify.mkOutcome classify.OutcomeAbort "context_canceled" [] 0, false).
Proof.
  induction pre as [|c pre IH]; intros lastRel failures rest H.
  - reflexivity.
  - destruct c as [res active|]; [|discriminate].
    cbn [app waitLoop] in *.
    destruct (classify.OutcomeKind_eqb (classify.Kind (outcome V res)) classify.OutcomeSuccess);
      [discriminate|].
    destruct (HedgePolicy.CancelOnFirstTerminal (Hedge pol) && _); [discriminate|].
    destruct (active =? 0); [discriminate|]. now apply IH.
Qed.

(** C4 (amended). When the caller's [ctx] is done at a [select] the
    coordinator reaches before a received result made it return, and no
    result is ready at that [select] or the [select] takes the [ctx.Done()]
    case (with a result ready too, it may take either), [doRetryGroup]
    returns a nil value, the caller's [ctx.Err()] and an Abort outcome
    whose reason is [context_canceled]; what the attempts still in flight
    deliver afterwards ([rest]) changes nothing. *)
Theorem doRetryGroup_ctx_done (g : GroupSchedule V) pre r (pickCtx : bool) rest :
  selectCases V g = casesOf V (pre ++ (r, pickCtx) :: rest) ->
  waitLoop V pol ctxErr (zeroGroupResult V) 0 (casesOf V pre) = None ->
  ctxIsDone V r = true ->
  resultIsReady V r = false \/ pickCtx = true ->
  doRetryGroup V pol ctxErr g
  = Some (None, ctxErr,
          classify.mkOutcome classify.OutcomeAbort "context_canceled" [] 0, false).
Proof.
  intros Hg Hpre Hdone Hpick. unfold doRetryGroup. rewrite Hg.
  unfold casesOf in *. rewrite map_app. cbn [map fst snd].
  assert (E : selectOf V r pickCtx = CtxDone V).
  { destruct r as [res active| |res active]; cbn in *.
    - discriminate.
    - reflexivity.
    - destruct Hpick as [Hc| ->]; [discriminate|reflexivity]. }
  rewrite E. now apply waitLoop_ctx_done_after.
Qed.

(** Every record an attempt of the group [retryIdx] hands to
    [recordAttempt] carries [Attempt = retryIdx]. *)
Lemma launch_records_Attempt retryIdx lastBackoff env idx isHedge rec :
  In rec (recordsOf V (launch V key pol retryIdx lastBackoff env idx isHedge)) ->
  observe.Attempt rec = retryIdx /\ observe.HedgeIndex rec = idx.
Proof.
  unfold launch. destruct (allowAttempt _ _ _ _ _ _) as [decision allowed].
  destruct allowed; cbn [negb].
  - destruct (op _ _ _) as [v e]. destruct (classify _ _ _ _) as [o pe].
    destruct isHedge; destruct (budget.Release decision); cbn;
      intros [<-|[]]; split; reflexivity.
  - cbn. intros [<-|[]]; split; reflexivity.
Qed.

Lemma groupRecords_Attempt retryIdx lastBackoff g rec :
  In rec (groupRecords V key pol triggers retryIdx lastBackoff g) ->
  observe.Attempt rec = retryIdx.
Proof.
  unfold groupRecords, groupEffects.
  induction (launches pol triggers (groupStart V g) (spawnerEvents V g)) as [|l ls IH];
    cbn [flat_map].
  - intros [].
  - rewrite recordsOf_app, in_app_iff. intros [H|H]; [|now apply IH].
    now apply launch_records_Attempt in H.
Qed.

(** C3 (amended). When the budget gate denies an attempt, primary or
    hedge, the goroutine records one attempt with [BudgetAllowed = false],
    sends through the results channel a synthetic Abort outcome whose
    reason is the reason of the budget decision, with the attempt's
    [isHedge] flag and hedge index, and never calls [op]. *)
Theorem launch_denied retryIdx lastBackoff env (i : Z) (hedged : bool) :
  let budgetRef := if hedged then HedgePolicy.Budget (Hedge pol)
                   else RetryPolicy.Budget (Retry pol) in
  let budgetKind := if hedged then budget.KindHedge else budget.KindRetry in
  let decision := fst (allowAttempt V env key budgetRef retryIdx budgetKind) in
  let abort := classify.mkOutcome classify.OutcomeAbort (budget.Reason decision) [] 0 in
  snd (allowAttempt V env key budgetRef retryIdx budgetKind) = false ->
  exists rec res,
    launch V key pol retryIdx lastBackoff env i hedged
    = [ AllowAttempt V key budgetRef retryIdx budgetKind;
        RecordAttempt V rec; Send V res; Done V ]
    /\ observe.BudgetAllowed rec = false
    /\ observe.BudgetReason rec = budget.Reason decision
    /\ observe.Outcome rec = abort
    /\ observe.IsHedge rec = hedged
    /\ observe.HedgeIndex rec = i
    /\ outcome V res = abort
    /\ isHedge V res = hedged
    /\ idx V res = i
    /\ opCalls V (launch V key pol retryIdx lastBackoff env i hedged) = [].
Proof.
  cbv zeta. unfold launch.
  destruct (allowAttempt _ _ _ _ _ _) as [decision allowed]. cbn [fst snd].
  intros ->. cbn [negb]. do 2 eexists. split; [reflexivity|].
  repeat split; reflexivity.
Qed.

Lemma spawnerLoop_exhausted trig start h events :
  maxHedges pol <= h -> spawnerLoop pol trig start h events = [].
Proof.
  intros H. destruct events as [|[|now] events]; cbn [spawnerLoop]; try reflexivity.
  destruct (h >=? maxHedges pol) eqn:E; [reflexivity|].
  set (m := maxHedges pol) in *. lia.
Qed.

(** C7 (amended). Under a normalized policy, a retry group launches at most
    [1 + maxHedges] attempts, [maxHedges] being [Hedge.MaxHedges] when
    hedging is enabled and 0 otherwise; it launches the primary alone when
    hedging is disabled; the spawner launches nothing once [hedgesLaunched]
    has reached [maxHedges]; and a call records at most
    [MaxAttempts * (1 + maxHedges)] attempts. *)
Theorem attempts_bounded (p0 : EffectivePolicy) :
  Normalize p0 = Some pol ->
  (forall start events,
     Z.of_nat (List.length (launches pol triggers start events)) <= 1 + maxHedges pol
     /\ (HedgePolicy.Enabled (Hedge pol) = true ->
         Z.of_nat (List.length (launches pol triggers start events))
         <= 1 + HedgePolicy.MaxHedges (Hedge pol))
     /\ (HedgePolicy.Enabled (Hedge pol) = false ->
         launches pol triggers start events = [(0, false)]))
  /\ (forall trig start h events,
        maxHedges pol <= h -> spawnerLoop pol trig start h events = [])
  /\ (forall groups,
        Z.of_nat (List.length (callRecords V key pol triggers ctxErr groups))
        <= RetryPolicy.MaxAttempts (Retry pol) * (1 + maxHedges pol)).
Proof.
  intros Hn. apply Normalize_guardrails in Hn.
  destruct Hn as (Hma & _ & _ & _ & _ & Hmh).
  unfold MaxAttemptsOf, HedgeEnabledOf, MaxHedgesOf in *.
  assert (Hm : 0 <= maxHedges pol).
  { unfold maxHedges. destruct (HedgePolicy.Enabled (Hedge pol)); [|lia].
    specialize (Hmh eq_refl). lia. }
  split; [|split].
  - intros start events. split; [now apply launches_bound|]. split.
    + intros He. pose proof (launches_bound start events Hm) as Hb.
      unfold maxHedges in Hb. now rewrite He in Hb.
    + apply launches_disabled.
  - intros trig start h events. apply spawnerLoop_exhausted.
  - intros groups. unfold callRecords.
    pose proof (callLoop_bound groups 0 ltac:(lia) Hm ltac:(lia)) as Hb.
    now rewrite Z.sub_0_r in Hb.
Qed.

End RetryGroupProperties.

(** ** The fixed-delay trigger *)

Section TriggerProperties.

Import policy retry hedge.

Lemma wrap64_small z : time.minDuration <= z <= time.maxDuration -> time.wrap64 z = z.
Proof.
  unfold time.wrap64, time.minDuration, time.maxDuration. intros H.
  rewrite Z.mod_small; lia.
Qed.

Lemma ShouldSpawnHedge_early t state :
  Elapsed state < Delay t ->
  ShouldSpawnHedge t state = (false, time.sub (Delay t) (Elapsed state)).
Proof. unfold ShouldSpawnHedge. intros H. destruct (Elapsed state <? Delay t) eqn:E; [reflexivity|lia]. Qed.

Lemma ShouldSpawnHedge_late t state :
  Delay t <= Elapsed state ->
  ShouldSpawnHedge t state = (AttemptsLaunched state <=? 1, 0).
Proof.
  unfold ShouldSpawnHedge. intros H.
  destruct (Elapsed state <? Delay t) eqn:E; [lia|].
  destruct (AttemptsLaunched state >? 1) eqn:E1, (AttemptsLaunched state <=? 1) eqn:E2;
    try reflexivity; lia.
Qed.

Lemma fixedDelay_no_second_hedge pol t start events : forall h,
  1 <= h ->
  hedgeCount (spawnerLoop pol (ShouldSpawnHedge t) start h events) = 0%nat.
Proof.
  induction events as [|e events IH]; intros h Hh; cbn [spawnerLoop]; [reflexivity|].
  destruct e as [|now]; [reflexivity|].
  destruct (h >=? maxHedges pol); [reflexivity|].
  unfold ShouldSpawnHedge at 1. cbn [Elapsed AttemptsLaunched].
  destruct (_ <? Delay t).
  - rewrite !hedgeCount_app, IH by lia. destruct (_ >? 0); reflexivity.
  - destruct (1 + h >? 1) eqn:E; [|lia].
    rewrite !hedgeCount_app, IH by lia. reflexivity.
Qed.

Lemma fixedDelay_one_hedge pol t start events :
  (hedgeCount (spawnerLoop pol (ShouldSpawnHedge t) start 0 events) <= 1)%nat.
Proof.
  induction events as [|e events IH]; cbn [spawnerLoop]; [cbn; lia|].
  destruct e as [|now]; [cbn; lia|].
  destruct (0 >=? maxHedges pol); [cbn; lia|].
  destruct (ShouldSpawnHedge t _) as [should nextCheck].
  rewrite !hedgeCount_app. destruct should.
  - rewrite fixedDelay_no_second_hedge by lia. destruct (nextCheck >? 0); cbn; lia.
  - destruct (nextCheck >? 0); cbn in *; lia.
Qed.


(** C8. [FixedDelayTrigger.ShouldSpawnHedge] is a function of the state
    alone.  Before the delay it answers [false] and asks to be called again
    after [Delay - Elapsed] (the Go subtraction on [time.Duration], which is
    the exact difference when that fits 64 bits); from the delay on it
    answers [true] exactly when [AttemptsLaunched <= 1], with a zero next
    check.  Hence a spawner driven by it launches at most one hedge,
    whatever the policy's [MaxHedges]. *)
Theorem FixedDelayTrigger_ShouldSpawnHedge_spec (t : FixedDelayTrigger)
    (state : HedgeState) :
  (Elapsed state < Delay t ->
     ShouldSpawnHedge t state = (false, time.sub (Delay t) (Elapsed state))
     /\ (time.minDuration <= Delay t - Elapsed state <= time.maxDuration ->
         time.sub (Delay t) (Elapsed state) = Delay t - Elapsed state))
  /\ (Delay t <= Elapsed state ->
        (AttemptsLaunched state <= 1 -> ShouldSpawnHedge t state = (true, 0))
        /\ (1 < AttemptsLaunched state -> ShouldSpawnHedge t state = (false, 0)))
  /\ (forall pol start events,
        (hedgeCount (spawnerLoop pol (ShouldSpawnHedge t) start 0 events) <= 1)%nat).
Proof.
  split; [|split].
  - intros H. split; [now apply ShouldSpawnHedge_early|].
    intros Hr. unfold time.sub. now apply wrap64_small.
  - intros H. rewrite (ShouldSpawnHedge_late _ _ H). split; intros Ha.
    + destruct (AttemptsLaunched state <=? 1) eqn:E; [reflexivity|lia].
    + destruct (AttemptsLaunched state <=? 1) eqn:E; [lia|reflexivity].
  - intros pol start events. apply fixedDelay_one_hedge.
Qed.

Definition delay200 : FixedDelayTrigger := mkFixedDelayTrigger (200 * time.Millisecond).

Lemma FixedDelayTrigger_ShouldSpawnHedge_spec_witness :
  ShouldSpawnHedge delay200 (mkHedgeState 0 0 1 3 (50 * time.Millisecond))
  = (false, 150 * time.Millisecond)
  /\ ShouldSpawnHedge delay200 (mkHedgeState 0 0 1 3 (225 * time.Millisecond))
     = (true, 0)
  /\ ShouldSpawnHedge delay200 (mkHedgeState 0 0 2 3 (250 * time.Millisecond))
     = (false, 0).
Proof.
  split; [|split].
  - destruct (FixedDelayTrigger_ShouldSpawnHedge_spec delay200
                (mkHedgeState 0 0 1 3 (50 * time.Millisecond))) as [H _].
    destruct H as [H _]; [reflexivity|]. rewrite H. reflexivity.
  - destruct (FixedDelayTrigger_ShouldSpawnHedge_spec delay200
                (mkHedgeState 0 0 1 3 (225 * time.Millisecond))) as (_ & H & _).
    destruct H as [H _]; [discriminate|]. apply H. discriminate.
  - destruct (FixedDelayTrigger_ShouldSpawnHedge_spec delay200
                (mkHedgeState 0 0 2 3 (250 * time.Millisecond))) as (_ & H & _).
    destruct H as [_ H]; [discriminate|]. apply H. reflexivity.
Defined.

End TriggerProperties.

(** ** A hedged group, step by step *)

Section Scenarios.

Import policy retry.

(** Hedging enabled with one hedge after 10 ms, no fail-fast. *)
Definition hedgedPolicy : EffectivePolicy :=
  mkEffectivePolicy demoKey "pol-1"
    (RetryPolicy.mk 3 (10 * time.Millisecond) (250 * time.Millisecond)
       f64_2 JitterNone 0 0 "" (BudgetRef.mk "" 1))
    (HedgePolicy.mk true 1 (10 * time.Millisecond) "" false (BudgetRef.mk "" 1))
    (CircuitPolicy.mk false 0 0)
    (Metadata.mk PolicySourceStatic (NormalizationInfo.mk false [])).

Lemma hedgedPolicy_normalized : Normalize hedgedPolicy = Some hedgedPolicy.
Proof. vm_compute. reflexivity. Qed.

Definition noBudget (_ : PolicyKey.t) (_ : BudgetRef.t) (_ : Z)
    (_ : budget.AttemptKind) : budget.Decision * bool :=
  (budget.mkDecision true budget.ReasonNoBudget None, true).

Definition nonRetryable : classify.Outcome :=
  classify.mkOutcome classify.OutcomeNonRetryable "validation" [] 0.
Definition retryable : classify.Outcome :=
  classify.mkOutcome classify.OutcomeRetryable "default_retry" [] 0.

(** The primary starts at 0 and fails for good at 40 ms. *)
Definition primaryEnv : AttemptEnv string :=
  mkAttemptEnv string
    (fun n => match n with O => 0 | _ => 40 * time.Millisecond end)
    noBudget
    (fun _ => (None, Some "invalid argument"))
    (fun _ _ => (nonRetryable, None)).

(** The hedge starts at 25 ms and fails with a transient error at 60 ms. *)
Definition hedgeEnv : AttemptEnv string :=
  mkAttemptEnv string
    (fun n => match n with O => 25 * time.Millisecond | _ => 60 * time.Millisecond end)
    noBudget
    (fun _ => (None, Some "unavailable"))
    (fun _ _ => (retryable, None)).

Definition primaryResult : groupResult string :=
  mkGroupResult string None (Some "invalid argument") nonRetryable
    0 (40 * time.Millisecond) false 0 None.
Definition hedgeResult : groupResult string :=
  mkGroupResult string None (Some "unavailable") retryable
    (25 * time.Millisecond) (60 * time.Millisecond) true 1 None.

(** The spawner ticks at 25 ms and launches the hedge; the coordinator
    receives the primary's result while the hedge is active, then the
    hedge's result with no attempt left. *)
Definition hedgedGroup : GroupSchedule string :=
  mkGroupSchedule string
    (fun i => if i =? 0 then primaryEnv else hedgeEnv)
    0
    [ Tick (25 * time.Millisecond); Tick (50 * time.Millisecond) ]
    [ RecvResult string primaryResult 1; RecvResult string hedgeResult 0 ].

(** The precedence of the specification:
    Success > NonRetryable > Abort > Retryable. *)
Definition precedence (k : classify.OutcomeKind) : nat :=
  match k with
  | classify.OutcomeSuccess => 3
  | classify.OutcomeNonRetryable => 2
  | classify.OutcomeAbort => 1
  | classify.OutcomeRetryable => 0
  | classify.OutcomeUnknown => 0
  end.

(** C1. Without fail-fast the group result is the last failure received,
    not the one of highest precedence: here the primary's NonRetryable
    arrives first, the hedge's Retryable last, and [doRetryGroup] returns
    the Retryable outcome. *)
Theorem doRetryGroup_returns_last_failure :
  HedgePolicy.CancelOnFirstTerminal (Hedge hedgedPolicy) = false
  /\ launches hedgedPolicy None (groupStart string hedgedGroup)
       (spawnerEvents string hedgedGroup) = [ (0, false); (1, true) ]
  /\ sentOf string (groupEffects string demoKey hedgedPolicy None 0 0 hedgedGroup)
     = [ primaryResult; hedgeResult ]
  /\ doRetryGroup string hedgedPolicy None hedgedGroup
     = Some (None, Some "unavailable", retryable, false)
  /\ (precedence (classify.Kind retryable)
      < precedence (classify.Kind (outcome string primaryResult)))%nat.
Proof. repeat split; vm_compute; reflexivity || lia. Qed.

(** C2. The records of a primary and of its hedge carry the same
    [Attempt], the retry index of the group: the sequence is not strictly
    increasing. *)
Theorem hedge_record_repeats_Attempt :
  map observe.IsHedge (groupRecords string demoKey hedgedPolicy None 0 0 hedgedGroup)
  = [ false; true ]
  /\ map observe.HedgeIndex (groupRecords string demoKey hedgedPolicy None 0 0 hedgedGroup)
     = [ 0; 1 ]
  /\ map observe.Attempt (groupRecords string demoKey hedgedPolicy None 0 0 hedgedGroup)
     = [ 0; 0 ]
  /\ map observe.Attempt
       (callRecords string demoKey hedgedPolicy None None
          [ (0, hedgedGroup); (10 * time.Millisecond, hedgedGroup) ])
     = [ 0; 0; 1; 1 ].
Proof. repeat split; vm_compute; reflexivity. Qed.

(** A budget that panicked, recovered into a denial. *)
Definition panickedBudgetEnv : AttemptEnv string :=
  mkAttemptEnv string
    (fun _ => 0)
    (fun _ _ _ _ => (budget.mkDecision false budget.ReasonPanicInBudget None, false))
    (fun _ => (None, None))
    (fun _ _ => (zeroOutcome, None)).

(** C3, as stated, fails: the synthetic Abort carries the reason of the
    decision, here [panic_in_budget], not [budget_denied]. *)
Lemma denied_reason_is_the_decision_reason :
  exists res,
    sentOf string (launch string demoKey hedgedPolicy 0 0 panickedBudgetEnv 1 true)
    = [ res ]
    /\ classify.Kind (outcome string res) = classify.OutcomeAbort
    /\ classify.Reason (outcome string res) <> budget.ReasonBudgetDenied.
Proof. eexists. split; [vm_compute; reflexivity|]. split; [reflexivity|discriminate]. Qed.

Lemma launch_denied_witness :
  snd (allowAttempt string panickedBudgetEnv demoKey
         (HedgePolicy.Budget (Hedge hedgedPolicy)) 0 budget.KindHedge) = false
  /\ exists rec res,
       launch string demoKey hedgedPolicy 0 0 panickedBudgetEnv 1 true
       = [ AllowAttempt string demoKey (HedgePolicy.Budget (Hedge hedgedPolicy)) 0
             budget.KindHedge;
           RecordAttempt string rec; Send string res; Done string ]
       /\ observe.BudgetAllowed rec = false
       /\ classify.Reason (outcome string res) = budget.ReasonPanicInBudget
       /\ isHedge string res = true
       /\ opCalls string (launch string demoKey hedgedPolicy 0 0 panickedBudgetEnv 1 true)
          = [].
Proof.
  split; [reflexivity|].
  destruct (launch_denied string demoKey hedgedPolicy 0 0 panickedBudgetEnv 1 true eq_refl)
    as (rec & res & E & Hb & _ & _ & _ & _ & Ho & Hh & _ & Hop).
  exists rec, res. repeat split; try assumption.
  rewrite Ho. reflexivity.
Defined.

(** The caller cancels while the hedge is still in flight: the primary's
    result is received first, then [ctx.Done()] is closed with nothing in
    the channel; the hedge delivers afterwards. *)
Definition canceledRun : list (Ready string * bool) :=
  [ (ResultReady string primaryResult 1, false);
    (CtxReady string, false);
    (BothReady string hedgeResult 0, false) ].

Definition canceledGroup : GroupSchedule string :=
  mkGroupSchedule string
    (fun i => if i =? 0 then primaryEnv else hedgeEnv)
    0
    [ Tick (25 * time.Millisecond) ]
    (casesOf string canceledRun).

(** The caller's context is done and the primary's result is in the
    channel when the coordinator first reaches its [select], and the
    [select] takes the result. *)
Definition racedRun : list (Ready string * bool) :=
  [ (BothReady string primaryResult 0, false) ].

Definition racedGroup : GroupSchedule string :=
  mkGroupSchedule string (fun _ => primaryEnv) 0 [] (casesOf string racedRun).

(** C4, as stated, fails.  With [ctx] done before any result is chosen,
    a result that is ready too can be taken by the [select]: the group then
    returns that attempt's error and outcome, not [ctx.Err()] and an Abort.
    And when the [ctx.Done()] case is taken, the reason of the Abort
    outcome is [context_canceled], not [ctx_canceled]. *)
Lemma ctx_done_does_not_force_abort :
  (map (fun s => ctxIsDone string (fst s)) racedRun = [ true ]
   /\ doRetryGroup string hedgedPolicy (Some "context canceled") racedGroup
      = Some (None, Some "invalid argument", nonRetryable, false)
   /\ Some "invalid argument" <> Some "context canceled"
   /\ classify.Kind nonRetryable <> classify.OutcomeAbort)
  /\ exists o,
       doRetryGroup string hedgedPolicy (Some "context canceled") canceledGroup
       = Some (None, Some "context canceled", o, false)
       /\ classify.Kind o = classify.OutcomeAbort
       /\ classify.Reason o = "context_canceled"
       /\ classify.Reason o <> "ctx_canceled".
Proof.
  split.
  - split; [reflexivity|]. split; [vm_compute; reflexivity|].
    split; discriminate.
  - eexists. split; [vm_compute; reflexivity|].
    split; [reflexivity|]. split; [reflexivity|discriminate].
Qed.

Lemma doRetryGroup_ctx_done_witness :
  waitLoop string hedgedPolicy (Some "context canceled") (zeroGroupResult string) 0
    (casesOf string [ (ResultReady string primaryResult 1, false) ]) = None
  /\ doRetryGroup string hedgedPolicy (Some "context canceled") canceledGroup
     = Some (None, Some "context canceled",
             classify.mkOutcome classify.OutcomeAbort "context_canceled" [] 0, false).
Proof.
  split; [reflexivity|].
  apply (doRetryGroup_ctx_done string hedgedPolicy (Some "context canceled")
           canceledGroup [ (ResultReady string primaryResult 1, false) ]
           (CtxReady string) false
           [ (BothReady string hedgeResult 0, false) ]);
    [reflexivity | reflexivity | reflexivity | left; reflexivity].
Defined.

(** Hedging disabled, with a [MaxHedges] that [Normalize] then leaves as
    it is. *)
Definition idleHedgePolicy : EffectivePolicy :=
  mkEffectivePolicy demoKey "pol-2"
    (RetryPolicy.mk 3 (10 * time.Millisecond) (250 * time.Millisecond)
       f64_2 JitterNone 0 0 "" (BudgetRef.mk "" 1))
    (HedgePolicy.mk false (-4) 0 "" false (BudgetRef.mk "" 1))
    (CircuitPolicy.mk false 0 0)
    (Metadata.mk PolicySourceStatic (NormalizationInfo.mk false [])).

(** Hedging enabled with [MaxHedges = -1], as no normalized policy has
    it. *)
Definition negativeHedgePolicy : EffectivePolicy :=
  mkEffectivePolicy demoKey "pol-3"
    (RetryPolicy.mk 3 (10 * time.Millisecond) (250 * time.Millisecond)
       f64_2 JitterNone 0 0 "" (BudgetRef.mk "" 1))
    (HedgePolicy.mk true (-1) (10 * time.Millisecond) "" false (BudgetRef.mk "" 1))
    (CircuitPolicy.mk false 0 0)
    (Metadata.mk PolicySourceStatic (NormalizationInfo.mk false [])).

(** The primary alone, failing for good. *)
Definition singleGroup : GroupSchedule string :=
  mkGroupSchedule string (fun _ => primaryEnv) 0
    [ Tick (25 * time.Millisecond) ]
    [ RecvResult string primaryResult 0 ].

(** C7, as stated, fails.  With hedging disabled [doRetryGroup] uses 0 for
    its [maxHedges] and never reads [Hedge.MaxHedges], which [Normalize]
    leaves alone then: under such a normalized policy with
    [MaxHedges = -4] a call of one group records one attempt, more than
    [MaxAttempts * (1 + MaxHedges) = -9].  And under a policy that is not
    normalized, hedging enabled with [MaxHedges = -1], the group launches
    its primary, more than [1 + MaxHedges = 0] attempts. *)
Lemma attempt_bounds_fail_for_negative_MaxHedges :
  (Normalize idleHedgePolicy = Some idleHedgePolicy
   /\ HedgePolicy.Enabled (Hedge idleHedgePolicy) = false
   /\ List.length (callRecords string demoKey idleHedgePolicy None None
                     [ (0, singleGroup) ]) = 1%nat
   /\ RetryPolicy.MaxAttempts (Retry idleHedgePolicy)
      * (1 + HedgePolicy.MaxHedges (Hedge idleHedgePolicy)) = -9
   /\ ~ Z.of_nat (List.length (callRecords string demoKey idleHedgePolicy None None
                                 [ (0, singleGroup) ]))
        <= RetryPolicy.MaxAttempts (Retry idleHedgePolicy)
           * (1 + HedgePolicy.MaxHedges (Hedge idleHedgePolicy)))
  /\ (Normalize negativeHedgePolicy <> Some negativeHedgePolicy
      /\ HedgePolicy.Enabled (Hedge negativeHedgePolicy) = true
      /\ launches negativeHedgePolicy None 0 [ Tick (25 * time.Millisecond) ]
         = [ (0, false) ]
      /\ ~ Z.of_nat (List.length (launches negativeHedgePolicy None 0
                                    [ Tick (25 * time.Millisecond) ]))
           <= 1 + HedgePolicy.MaxHedges (Hedge negativeHedgePolicy)).
Proof.
  split.
  - split; [vm_compute; reflexivity|]. split; [reflexivity|].
    split; [vm_compute; reflexivity|]. split; [reflexivity|].
    vm_compute. intros H. apply H. reflexivity.
  - split; [vm_compute; discriminate|]. split; [reflexivity|].
    split; [vm_compute; reflexivity|].
    vm_compute. intros H. apply H. reflexivity.
Qed.

Lemma attempts_bounded_witness :
  Normalize hedgedPolicy = Some hedgedPolicy
  /\ Z.of_nat (List.length (launches hedgedPolicy None 0
                              [ Tick (25 * time.Millisecond);
                                Tick (50 * time.Millisecond) ])) <= 1 + 1
  /\ Z.of_nat (List.length
                 (callRecords string demoKey hedgedPolicy None None
                    [ (0, hedgedGroup); (10 * time.Millisecond, hedgedGroup) ]))
     <= 3 * (1 + 1).
Proof.
  assert (E : Normalize hedgedPolicy = Some hedgedPolicy) by (vm_compute; reflexivity).
  split; [exact E|].
  destruct (attempts_bounded string demoKey hedgedPolicy None None hedgedPolicy E)
    as (Hl & _ & Hc).
  split.
  - exact (proj1 (Hl 0 [ Tick (25 * time.Millisecond); Tick (50 * time.Millisecond) ])).
  - exact (Hc [ (0, hedgedGroup); (10 * time.Millisecond, hedgedGroup) ]).
Defined.

End Scenarios.

(** * Further properties of the code *)

(** ** What Normalize touches *)

Section NormalizeTrace.

Import policy.

(** [touch S p q]: [q] is [p] after a sequence of assignments
    [normalized.F = v; markChanged(path of F)] to fields whose path is in
    [S].  Every block of [Normalize] is such a sequence. *)
Inductive touch (S : list string) : EffectivePolicy -> EffectivePolicy -> Prop :=
  | touch_refl n : touch S n n
  | touch_MaxAttempts v n : In "retry.max_attempts" S ->
      touch S n (markChanged "retry.max_attempts" (setMaxAttempts v n))
  | touch_InitialBackoff v n : In "retry.initial_backoff" S ->
      touch S n (markChanged "retry.initial_backoff" (setInitialBackoff v n))
  | touch_MaxBackoff v n : In "retry.max_backoff" S ->
      touch S n (markChanged "retry.max_backoff" (setMaxBackoff v n))
  | touch_BackoffMultiplier v n : In "retry.backoff_multiplier" S ->
      touch S n (markChanged "retry.backoff_multiplier" (setBackoffMultiplier v n))
  | touch_Jitter v n : In "retry.jitter" S ->
      touch S n (markChanged "retry.jitter" (setJitter v n))
  | touch_TimeoutPerAttempt v n : In "retry.timeout_per_attempt" S ->
      touch S n (markChanged "retry.timeout_per_attempt" (setTimeoutPerAttempt v n))
  | touch_OverallTimeout v n : In "retry.overall_timeout" S ->
      touch S n (markChanged "retry.overall_timeout" (setOverallTimeout v n))
  | touch_RetryBudgetCost v n : In "retry.budget.cost" S ->
      touch S n (markChanged "retry.budget.cost" (setRetryBudgetCost v n))
  | touch_HedgeBudgetCost v n : In "hedge.budget.cost" S ->
      touch S n (markChanged "hedge.budget.cost" (setHedgeBudgetCost v n))
  | touch_MaxHedges v n : In "hedge.max_hedges" S ->
      touch S n (markChanged "hedge.max_hedges" (setMaxHedges v n))
  | touch_HedgeDelay v n : In "hedge.hedge_delay" S ->
      touch S n (markChanged "hedge.hedge_delay" (setHedgeDelay v n))
  | touch_Threshold v n : In "circuit.threshold" S ->
      touch S n (markChanged "circuit.threshold" (setThreshold v n))
  | touch_Cooldown v n : In "circuit.cooldown" S ->
      touch S n (markChanged "circuit.cooldown" (setCooldown v n))
  | touch_trans a b c : touch S a b -> touch S b c -> touch S a c.

Ltac touch_one :=
  lazymatch goal with
  | |- touch _ _ (markChanged _ (setMaxAttempts _ _)) => apply touch_MaxAttempts
  | |- touch _ _ (markChanged _ (setInitialBackoff _ _)) => apply touch_InitialBackoff
  | |- touch _ _ (markChanged _ (setMaxBackoff _ _)) => apply touch_MaxBackoff
  | |- touch _ _ (markChanged _ (setBackoffMultiplier _ _)) =>
      apply touch_BackoffMultiplier
  | |- touch _ _ (markChanged _ (setJitter _ _)) => apply touch_Jitter
  | |- touch _ _ (markChanged _ (setTimeoutPerAttempt _ _)) =>
      apply touch_TimeoutPerAttempt
  | |- touch _ _ (markChanged _ (setOverallTimeout _ _)) => apply touch_OverallTimeout
  | |- touch _ _ (markChanged _ (setRetryBudgetCost _ _)) => apply touch_RetryBudgetCost
  | |- touch _ _ (markChanged _ (setHedgeBudgetCost _ _)) => apply touch_HedgeBudgetCost
  | |- touch _ _ (markChanged _ (setMaxHedges _ _)) => apply touch_MaxHedges
  | |- touch _ _ (markChanged _ (setHedgeDelay _ _)) => apply touch_HedgeDelay
  | |- touch _ _ (markChanged _ (setThreshold _ _)) => apply touch_Threshold
  | |- touch _ _ (markChanged _ (setCooldown _ _)) => apply touch_Cooldown
  end; simpl; tauto.

Ltac touch_solve :=
  lazymatch goal with
  | |- touch _ ?n ?n => apply touch_refl
  | |- touch _ ?n (markChanged _ (_ _ ?n)) => touch_one
  | |- touch ?S ?n (markChanged _ (_ _ ?m)) =>
      apply (touch_trans S n m); [ touch_solve | touch_one ]
  end.

Ltac split_inner :=
  once (match goal with
  | |- context [if ?c then _ else _] =>
      lazymatch c with
      | context [if _ then _ else _] => fail
      | _ => destruct c
      end
  end).

Ltac touch_block := cbv zeta; repeat (split_inner; cbv iota); touch_solve.

Lemma touch_normMaxAttempts n : touch ["retry.max_attempts"] n (normMaxAttempts n).
Proof. unfold normMaxAttempts. touch_block. Qed.
Lemma touch_normInitialBackoff n :
  touch ["retry.initial_backoff"] n (normInitialBackoff n).
Proof. unfold normInitialBackoff. touch_block. Qed.
Lemma touch_normMaxBackoff n : touch ["retry.max_backoff"] n (normMaxBackoff n).
Proof. unfold normMaxBackoff. touch_block. Qed.
Lemma touch_normBackoffMultiplier n :
  touch ["retry.backoff_multiplier"] n (normBackoffMultiplier n).
Proof. unfold normBackoffMultiplier. touch_block. Qed.
Lemma touch_normJitter n n' : normJitter n = Some n' -> touch ["retry.jitter"] n n'.
Proof.
  unfold normJitter. destruct (_ =? _)%string.
  - intros E; inversion E. touch_solve.
  - destruct (_ || _); [|discriminate]. intros E; inversion E. apply touch_refl.
Qed.
Lemma touch_normTimeoutPerAttempt n :
  touch ["retry.timeout_per_attempt"] n (normTimeoutPerAttempt n).
Proof. unfold normTimeoutPerAttempt. touch_block. Qed.
Lemma touch_normOverallTimeout n :
  touch ["retry.overall_timeout"] n (normOverallTimeout n).
Proof. unfold normOverallTimeout. touch_block. Qed.
Lemma touch_normRetryBudgetCost n :
  touch ["retry.budget.cost"] n (normRetryBudgetCost n).
Proof. unfold normRetryBudgetCost. touch_block. Qed.
Lemma touch_normHedgeBudgetCost n :
  touch ["hedge.budget.cost"] n (normHedgeBudgetCost n).
Proof. unfold normHedgeBudgetCost. touch_block. Qed.
Lemma touch_normMaxHedges n : touch ["hedge.max_hedges"] n (normMaxHedges n).
Proof. unfold normMaxHedges. touch_block. Qed.
Lemma touch_normHedgeDelay n : touch ["hedge.hedge_delay"] n (normHedgeDelay n).
Proof. unfold normHedgeDelay. touch_block. Qed.
Lemma touch_normThreshold n : touch ["circuit.threshold"] n (normThreshold n).
Proof. unfold normThreshold. touch_block. Qed.
Lemma touch_normCooldown n : touch ["circuit.cooldown"] n (normCooldown n).
Proof. unfold normCooldown. touch_block. Qed.

Lemma touch_incl S S' a b : incl S S' -> touch S a b -> touch S' a b.
Proof.
  intros Hi H. induction H; try (constructor; auto; fail).
  eapply touch_trans; eassumption.
Qed.


(** The fields [Normalize] has no assignment for. *)
Definition sameIdentity (p q : EffectivePolicy) : Prop :=
  Key q = Key p
  /\ ID q = ID p
  /\ Metadata.Source (Meta q) = Metadata.Source (Meta p)
  /\ RetryPolicy.ClassifierName (Retry q) = RetryPolicy.ClassifierName (Retry p)
  /\ BudgetRef.Name (RetryPolicy.Budget (Retry q))
     = BudgetRef.Name (RetryPolicy.Budget (Retry p))
  /\ HedgePolicy.Enabled (Hedge q) = HedgePolicy.Enabled (Hedge p)
  /\ HedgePolicy.TriggerName (Hedge q) = HedgePolicy.TriggerName (Hedge p)
  /\ HedgePolicy.CancelOnFirstTerminal (Hedge q)
     = HedgePolicy.CancelOnFirstTerminal (Hedge p)
  /\ BudgetRef.Name (HedgePolicy.Budget (Hedge q))
     = BudgetRef.Name (HedgePolicy.Budget (Hedge p))
  /\ CircuitPolicy.Enabled (Circuit q) = CircuitPolicy.Enabled (Circuit p).

Lemma touch_sameIdentity S a b : touch S a b -> sameIdentity a b.
Proof.
  unfold sameIdentity.
  induction 1; try (repeat split; reflexivity).
  repeat match goal with H : _ /\ _ |- _ => destruct H end.
  repeat split; congruence.
Qed.

(** A field whose path is not in [S] keeps its value. *)
Definition frame (S : list string) (p q : EffectivePolicy) : Prop :=
  (~ In "retry.max_attempts" S -> MaxAttemptsOf q = MaxAttemptsOf p)
  /\ (~ In "retry.initial_backoff" S -> InitialBackoffOf q = InitialBackoffOf p)
  /\ (~ In "retry.max_backoff" S -> MaxBackoffOf q = MaxBackoffOf p)
  /\ (~ In "retry.backoff_multiplier" S ->
      BackoffMultiplierOf q = BackoffMultiplierOf p)
  /\ (~ In "retry.jitter" S -> JitterOf q = JitterOf p)
  /\ (~ In "retry.timeout_per_attempt" S ->
      TimeoutPerAttemptOf q = TimeoutPerAttemptOf p)
  /\ (~ In "retry.overall_timeout" S -> OverallTimeoutOf q = OverallTimeoutOf p)
  /\ (~ In "retry.budget.cost" S -> RetryCostOf q = RetryCostOf p)
  /\ (~ In "hedge.budget.cost" S -> HedgeCostOf q = HedgeCostOf p)
  /\ (~ In "hedge.max_hedges" S -> MaxHedgesOf q = MaxHedgesOf p)
  /\ (~ In "hedge.hedge_delay" S -> HedgeDelayOf q = HedgeDelayOf p)
  /\ (~ In "circuit.threshold" S -> ThresholdOf q = ThresholdOf p)
  /\ (~ In "circuit.cooldown" S -> CooldownOf q = CooldownOf p).

Lemma touch_frame S a b : touch S a b -> frame S a b.
Proof.
  unfold frame.
  induction 1;
    try (repeat split; intros Hn; first [reflexivity | contradiction]).
  repeat match goal with H : _ /\ _ |- _ => destruct H end.
  repeat split; intros Hn;
    repeat match goal with H : ~ _ -> _ |- _ => specialize (H Hn) end; congruence.
Qed.

Lemma marked_assign f g (n n' : EffectivePolicy) :
  marked f n -> Meta n' = Meta n -> marked f (markChanged g n').
Proof.
  unfold marked, ChangedOf, ChangedFieldsOf, markChanged, withNormalization.
  cbn -[hasField]. intros [_ H] ->. split; [reflexivity|].
  destruct (hasField g (NormalizationInfo.ChangedFields _));
    [exact H|now apply hasField_app].
Qed.

Lemma touch_marked f S a b : touch S a b -> marked f a -> marked f b.
Proof.
  induction 1; intros Hm;
    try (eapply marked_assign; [eassumption|reflexivity]); auto.
Qed.

Lemma marked_self f (n : EffectivePolicy) : marked f (markChanged f n).
Proof.
  unfold marked, ChangedOf, ChangedFieldsOf, markChanged, withNormalization.
  cbn -[hasField]. split; [reflexivity|].
  destruct (hasField f (NormalizationInfo.ChangedFields _)) eqn:E;
    [exact E|apply hasField_app_self].
Qed.

(** A field keeps its value or has its path recorded. *)
Definition recorded (p q : EffectivePolicy) : Prop :=
  (MaxAttemptsOf q = MaxAttemptsOf p \/ marked "retry.max_attempts" q)
  /\ (InitialBackoffOf q = InitialBackoffOf p \/ marked "retry.initial_backoff" q)
  /\ (MaxBackoffOf q = MaxBackoffOf p \/ marked "retry.max_backoff" q)
  /\ (BackoffMultiplierOf q = BackoffMultiplierOf p
      \/ marked "retry.backoff_multiplier" q)
  /\ (JitterOf q = JitterOf p \/ marked "retry.jitter" q)
  /\ (TimeoutPerAttemptOf q = TimeoutPerAttemptOf p
      \/ marked "retry.timeout_per_attempt" q)
  /\ (OverallTimeoutOf q = OverallTimeoutOf p \/ marked "retry.overall_timeout" q)
  /\ (RetryCostOf q = RetryCostOf p \/ marked "retry.budget.cost" q)
  /\ (HedgeCostOf q = HedgeCostOf p \/ marked "hedge.budget.cost" q)
  /\ (MaxHedgesOf q = MaxHedgesOf p \/ marked "hedge.max_hedges" q)
  /\ (HedgeDelayOf q = HedgeDelayOf p \/ marked "hedge.hedge_delay" q)
  /\ (ThresholdOf q = ThresholdOf p \/ marked "circuit.threshold" q)
  /\ (CooldownOf q = CooldownOf p \/ marked "circuit.cooldown" q).

Lemma touch_recorded S a b : touch S a b -> recorded a b.
Proof.
  unfold recorded.
  induction 1 as [ | | | | | | | | | | | | | | a b c Hab IHab Hbc IHbc ];
    try (repeat split; first [left; reflexivity | right; apply marked_self]).
  repeat match goal with H : _ /\ _ |- _ => destruct H end.
  repeat split;
    match goal with
    | H1 : ?x b = ?x a \/ marked ?f b, H2 : ?x c = ?x b \/ marked ?f c
      |- ?x c = ?x a \/ marked ?f c =>
      destruct H2 as [H2|H2]; [|right; exact H2];
      destruct H1 as [H1|H1]; [left; congruence|right; exact (touch_marked f S b c Hbc H1)]
    end.
Qed.

Lemma touch_unchanged S a b : touch S a b -> ChangedOf b = false -> b = a.
Proof.
  induction 1 as [ | | | | | | | | | | | | | | a b c Hab IHab Hbc IHbc ];
    intros Hc; try reflexivity; try (cbn in Hc; discriminate).
  specialize (IHbc Hc). subst c. auto.
Qed.

Lemma hasField_In f cf : hasField f cf = true <-> In f cf.
Proof.
  unfold hasField. rewrite existsb_exists. split.
  - intros (x & Hx & E). apply String.eqb_eq in E. now subst.
  - intros H. exists f. split; [assumption|apply String.eqb_refl].
Qed.

(** The recorded paths only grow: the old ones stay in front, a new one is
    a path of [S], and no path comes twice. *)
Definition grows (S : list string) (p q : EffectivePolicy) : Prop :=
  (exists l, ChangedFieldsOf q = ChangedFieldsOf p ++ l
             /\ (forall f, In f l -> In f S)
             /\ (ChangedOf p = false -> l <> [] -> ChangedOf q = true))
  /\ (ChangedOf p = true -> ChangedOf q = true)
  /\ (NoDup (ChangedFieldsOf p) -> NoDup (ChangedFieldsOf q)).

Lemma grows_assign S f (n n' : EffectivePolicy) :
  In f S -> Meta n' = Meta n -> grows S n (markChanged f n').
Proof.
  intros Hf Hm. unfold grows, ChangedOf, ChangedFieldsOf, markChanged, withNormalization.
  cbn -[hasField]. rewrite Hm.
  destruct (hasField f _) eqn:E.
  - split; [|split; [reflexivity|auto]].
    exists []. rewrite app_nil_r. split; [reflexivity|]. split; [intros ? []|congruence].
  - split; [|split; [reflexivity|]].
    + exists [f]. split; [reflexivity|]. split; [|reflexivity].
      intros g [<-|[]]. exact Hf.
    + intros Hnd. apply NoDup_app; [assumption|repeat constructor; intros []|].
      intros g Hg [<-|[]]. apply hasField_In in Hg. congruence.
Qed.

Lemma touch_grows S a b : touch S a b -> grows S a b.
Proof.
  induction 1 as [ n | | | | | | | | | | | | | | a b c Hab IHab Hbc IHbc ];
    try (apply grows_assign; [assumption|reflexivity]).
  - unfold grows. split; [|split; auto].
    exists []. rewrite app_nil_r. split; [reflexivity|]. split; [intros ? []|congruence].
  - destruct IHab as ((l1 & E1 & I1 & C1) & M1 & N1).
    destruct IHbc as ((l2 & E2 & I2 & C2) & M2 & N2).
    split; [|split; auto].
    exists (l1 ++ l2). rewrite E2, E1, app_assoc. split; [reflexivity|]. split.
    + intros f Hf. apply in_app_iff in Hf. destruct Hf; auto.
    + intros Ha Hl. destruct l1 as [|x l1].
      * destruct (ChangedOf b) eqn:Eb; [auto|]. apply C2; [reflexivity|exact Hl].
      * apply M2, C1; [assumption|discriminate].
Qed.


Definition retryPaths : list string :=
  [ "retry.max_attempts"; "retry.initial_backoff"; "retry.max_backoff";
    "retry.backoff_multiplier"; "retry.jitter"; "retry.timeout_per_attempt";
    "retry.overall_timeout"; "retry.budget.cost"; "hedge.budget.cost" ].
Definition hedgePaths : list string := [ "hedge.max_hedges"; "hedge.hedge_delay" ].
Definition circuitPaths : list string := [ "circuit.threshold"; "circuit.cooldown" ].

(** The paths [Normalize] may assign for the flags of [p]: the circuit
    fields come after the test on [Hedge.Enabled]. *)
Definition touchedPaths (p : EffectivePolicy) : list string :=
  retryPaths
  ++ (if HedgeEnabledOf p
      then hedgePaths ++ (if CircuitEnabledOf p then circuitPaths else [])
      else []).

Ltac incl_tac := unfold incl; simpl; intuition.

Lemma touch_beforeJitter S p :
  incl [ "retry.max_attempts"; "retry.initial_backoff"; "retry.max_backoff";
         "retry.backoff_multiplier" ] S ->
  touch S p
    (normBackoffMultiplier (normMaxBackoff (normInitialBackoff (normMaxAttempts p)))).
Proof.
  intros Hi.
  pose proof (touch_refl S p) as T.
  pose proof (touch_normMaxAttempts p) as T1.
  pose proof (touch_normInitialBackoff (normMaxAttempts p)) as T2.
  pose proof (touch_normMaxBackoff (normInitialBackoff (normMaxAttempts p))) as T3.
  pose proof (touch_normBackoffMultiplier
                (normMaxBackoff (normInitialBackoff (normMaxAttempts p)))) as T4.
  assert (forall f a b,
            In f [ "retry.max_attempts"; "retry.initial_backoff"; "retry.max_backoff";
                   "retry.backoff_multiplier" ] ->
            touch [f] a b -> touch S a b) as W.
  { intros f a b Hf. apply touch_incl. intros x [<-|[]]. now apply Hi. }
  eapply touch_trans; [eapply touch_trans; [eapply touch_trans|]|].
  - eapply W; [|exact T1]. simpl; tauto.
  - eapply W; [|exact T2]. simpl; tauto.
  - eapply W; [|exact T3]. simpl; tauto.
  - eapply W; [|exact T4]. simpl; tauto.
Qed.

Lemma touch_afterJitter n :
  touch retryPaths n
    (normHedgeBudgetCost (normRetryBudgetCost (normOverallTimeout
       (normTimeoutPerAttempt n)))).
Proof.
  assert (forall f a b, In f retryPaths -> touch [f] a b -> touch retryPaths a b) as W.
  { intros f a b Hf. apply touch_incl. intros x [<-|[]]. exact Hf. }
  eapply touch_trans; [eapply touch_trans; [eapply touch_trans|]|].
  - eapply W; [|apply touch_normTimeoutPerAttempt]. simpl; tauto.
  - eapply W; [|apply touch_normOverallTimeout]. simpl; tauto.
  - eapply W; [|apply touch_normRetryBudgetCost]. simpl; tauto.
  - eapply W; [|apply touch_normHedgeBudgetCost]. simpl; tauto.
Qed.

Lemma Normalize_touch p q : Normalize p = Some q -> touch (touchedPaths p) p q.
Proof.
  unfold Normalize. cbv zeta.
  pose proof (touch_beforeJitter retryPaths p ltac:(incl_tac)) as T4.
  destruct (normJitter _) as [n5|] eqn:E5; [|discriminate].
  apply touch_normJitter in E5.
  assert (T5 : touch retryPaths p n5).
  { eapply touch_trans; [exact T4|]. eapply touch_incl; [|exact E5]. incl_tac. }
  pose proof (touch_trans _ _ _ _ T5 (touch_afterJitter n5)) as T9.
  set (n9 := normHedgeBudgetCost _) in *.
  destruct (touch_sameIdentity _ _ _ T9) as (_ & _ & _ & _ & _ & He & _ & _ & _ & Hc).
  unfold touchedPaths, HedgeEnabledOf, CircuitEnabledOf in *. rewrite <- He, <- Hc.
  destruct (HedgePolicy.Enabled (Hedge n9)) eqn:Ee; cbn [negb].
  2: { intros E; inversion E; subst q. rewrite app_nil_r. exact T9. }
  assert (T11 : touch (retryPaths ++ hedgePaths) p (normHedgeDelay (normMaxHedges n9))).
  { eapply touch_trans; [eapply touch_trans|].
    - eapply touch_incl; [|exact T9]. incl_tac.
    - eapply touch_incl; [|apply touch_normMaxHedges]. incl_tac.
    - eapply touch_incl; [|apply touch_normHedgeDelay]. incl_tac. }
  set (n11 := normHedgeDelay _) in *.
  destruct (touch_sameIdentity _ _ _ T11) as (_ & _ & _ & _ & _ & _ & _ & _ & _ & Hc11).
  assert (Hcc : CircuitPolicy.Enabled (Circuit n11) = CircuitPolicy.Enabled (Circuit n9)).
  { destruct (touch_sameIdentity _ _ _ T9) as (_ & _ & _ & _ & _ & _ & _ & _ & _ & Hc9).
    congruence. }
  rewrite <- Hcc.
  destruct (CircuitPolicy.Enabled (Circuit n11)) eqn:Ec; cbn [negb].
  2: { intros E; inversion E; subst q. rewrite app_nil_r. exact T11. }
  intros E; inversion E; subst q.
  eapply touch_trans; [eapply touch_trans|].
  - eapply touch_incl; [|exact T11]. rewrite app_assoc. apply incl_appl, incl_refl.
  - eapply touch_incl; [|apply touch_normThreshold]. incl_tac.
  - eapply touch_incl; [|apply touch_normCooldown]. incl_tac.
Qed.

(** X1. [Normalize] returns its error exactly when [Retry.Jitter] is
    neither empty nor one of [none], [full], [equal]; no other field can
    make it fail. *)
Theorem Normalize_fails_iff_unknown_jitter p :
  Normalize p = None
  <-> (JitterOf p <> "" /\ JitterOf p <> JitterNone
       /\ JitterOf p <> JitterFull /\ JitterOf p <> JitterEqual).
Proof.
  pose proof (touch_beforeJitter
                [ "retry.max_attempts"; "retry.initial_backoff"; "retry.max_backoff";
                  "retry.backoff_multiplier" ] p (incl_refl _)) as T4.
  apply touch_frame in T4. destruct T4 as (_ & _ & _ & _ & Hj & _).
  specialize (Hj ltac:(simpl; intuition discriminate)).
  unfold Normalize. cbv zeta.
  set (n4 := normBackoffMultiplier _) in *.
  unfold normJitter. rewrite Hj.
  destruct (String.eqb_spec (JitterOf p) "") as [E0|E0].
  { split; [|tauto]. cbv iota.
    repeat match goal with |- context [if ?c then _ else _] => destruct c end;
      discriminate. }
  destruct (String.eqb_spec (JitterOf p) JitterNone) as [E1|E1].
  { split; [|tauto]. cbn [orb]. cbv iota.
    repeat match goal with |- context [if ?c then _ else _] => destruct c end;
      discriminate. }
  destruct (String.eqb_spec (JitterOf p) JitterFull) as [E2|E2].
  { split; [|tauto]. cbn [orb]. cbv iota.
    repeat match goal with |- context [if ?c then _ else _] => destruct c end;
      discriminate. }
  destruct (String.eqb_spec (JitterOf p) JitterEqual) as [E3|E3].
  { split; [|tauto]. cbn [orb]. cbv iota.
    repeat match goal with |- context [if ?c then _ else _] => destruct c end;
      discriminate. }
  cbn [orb]. split; [tauto|reflexivity].
Qed.


(** X2. A successful [Normalize] never changes the key, the ID, the
    resolution source, the classifier name, the budget and trigger names,
    [CancelOnFirstTerminal] or the two [Enabled] flags. *)
Theorem Normalize_keeps_identity p q : Normalize p = Some q -> sameIdentity p q.
Proof. intros H. exact (touch_sameIdentity _ _ _ (Normalize_touch _ _ H)). Qed.

Lemma Normalize_keeps_identity_witness :
  Normalize untidyPolicy = Some untidyNormalized
  /\ sameIdentity untidyPolicy untidyNormalized.
Proof.
  assert (E : Normalize untidyPolicy = Some untidyNormalized)
    by (vm_compute; reflexivity).
  split; [exact E|]. exact (Normalize_keeps_identity _ _ E).
Defined.

Lemma Circuit_ext (a b : CircuitPolicy.t) :
  CircuitPolicy.Enabled a = CircuitPolicy.Enabled b ->
  CircuitPolicy.Threshold a = CircuitPolicy.Threshold b ->
  CircuitPolicy.Cooldown a = CircuitPolicy.Cooldown b -> a = b.
Proof. destruct a, b; cbn; congruence. Qed.

(** X3. The hedge and circuit blocks of [Normalize] sit behind early
    returns: with hedging disabled, [MaxHedges], [HedgeDelay] and the whole
    circuit policy come back as they went in, even when [Circuit.Enabled]
    is set; with the circuit disabled the circuit policy comes back as it
    went in. *)
Theorem Normalize_skips_disabled p q :
  Normalize p = Some q ->
  (HedgeEnabledOf p = false ->
     MaxHedgesOf q = MaxHedgesOf p /\ HedgeDelayOf q = HedgeDelayOf p
     /\ Circuit q = Circuit p)
  /\ (CircuitEnabledOf p = false -> Circuit q = Circuit p).
Proof.
  intros H. pose proof (Normalize_touch _ _ H) as T.
  destruct (touch_sameIdentity _ _ _ T) as (_ & _ & _ & _ & _ & _ & _ & _ & _ & Hc).
  apply touch_frame in T.
  destruct T as (_ & _ & _ & _ & _ & _ & _ & _ & _ & Hmh & Hhd & Hth & Hcd).
  unfold touchedPaths in *. split.
  - intros He. rewrite He in *. rewrite app_nil_r in *.
    assert (forall f, In f hedgePaths \/ In f circuitPaths -> ~ In f retryPaths) as Hn.
    { intros f Hf Hr. simpl in Hf, Hr.
      repeat match goal with
             | H : _ \/ _ |- _ => destruct H
             | H : False |- _ => destruct H
             end; subst; discriminate. }
    split; [apply Hmh, Hn; simpl; tauto|]. split; [apply Hhd, Hn; simpl; tauto|].
    apply Circuit_ext; [exact Hc|apply Hth, Hn; simpl; tauto|apply Hcd, Hn; simpl; tauto].
  - intros Hce. rewrite Hce in *.
    assert (forall f, In f circuitPaths ->
              ~ In f (retryPaths ++ (if HedgeEnabledOf p then hedgePaths ++ [] else [])))
      as Hn.
    { intros f Hf Hr. destruct (HedgeEnabledOf p); simpl in Hf, Hr;
      repeat match goal with
             | H : _ \/ _ |- _ => destruct H
             | H : False |- _ => destruct H
             end; subst; discriminate. }
    apply Circuit_ext; [exact Hc|apply Hth, Hn; simpl; tauto|apply Hcd, Hn; simpl; tauto].
Qed.

(** Hedging off, circuit on with nothing filled in. *)
Definition circuitOnly : EffectivePolicy :=
  mkEffectivePolicy demoKey ""
    (RetryPolicy.mk 3 (10 * time.Millisecond) (250 * time.Millisecond)
       f64_2 JitterNone 0 0 "" (BudgetRef.mk "" 1))
    (HedgePolicy.mk false (-4) 0 "" false (BudgetRef.mk "" 1))
    (CircuitPolicy.mk true 0 0)
    (Metadata.mk PolicySourceStatic (NormalizationInfo.mk false [])).

Lemma Normalize_skips_disabled_witness :
  Normalize circuitOnly = Some circuitOnly
  /\ HedgeEnabledOf circuitOnly = false
  /\ Circuit circuitOnly = CircuitPolicy.mk true 0 0.
Proof.
  assert (E : Normalize circuitOnly = Some circuitOnly) by (vm_compute; reflexivity).
  split; [exact E|]. split; [reflexivity|].
  destruct (Normalize_skips_disabled _ _ E) as [H _].
  destruct (H eq_refl) as (_ & _ & Hc). reflexivity.
Defined.

(** X4. When the result of [Normalize] has [Changed = false], it is the
    input, field by field: nothing is repaired without being flagged. *)
Theorem Normalize_unflagged_is_unchanged p q :
  Normalize p = Some q -> ChangedOf q = false -> q = p.
Proof. intros H. exact (touch_unchanged _ _ _ (Normalize_touch _ _ H)). Qed.

Lemma Normalize_unflagged_is_unchanged_witness :
  Normalize circuitOnly = Some circuitOnly /\ ChangedOf circuitOnly = false.
Proof.
  assert (E : Normalize circuitOnly = Some circuitOnly) by (vm_compute; reflexivity).
  split; [exact E|].
  pose proof (Normalize_unflagged_is_unchanged circuitOnly circuitOnly E eq_refl).
  reflexivity.
Defined.

(** X5. Every field [Normalize] returns with a value different from the
    input has its path in [ChangedFields], and [Changed] is set. *)
Theorem Normalize_records_changes p q :
  Normalize p = Some q ->
  (MaxAttemptsOf q <> MaxAttemptsOf p -> marked "retry.max_attempts" q)
  /\ (InitialBackoffOf q <> InitialBackoffOf p -> marked "retry.initial_backoff" q)
  /\ (MaxBackoffOf q <> MaxBackoffOf p -> marked "retry.max_backoff" q)
  /\ (BackoffMultiplierOf q <> BackoffMultiplierOf p ->
      marked "retry.backoff_multiplier" q)
  /\ (JitterOf q <> JitterOf p -> marked "retry.jitter" q)
  /\ (TimeoutPerAttemptOf q <> TimeoutPerAttemptOf p ->
      marked "retry.timeout_per_attempt" q)
  /\ (OverallTimeoutOf q <> OverallTimeoutOf p -> marked "retry.overall_timeout" q)
  /\ (RetryCostOf q <> RetryCostOf p -> marked "retry.budget.cost" q)
  /\ (HedgeCostOf q <> HedgeCostOf p -> marked "hedge.budget.cost" q)
  /\ (MaxHedgesOf q <> MaxHedgesOf p -> marked "hedge.max_hedges" q)
  /\ (HedgeDelayOf q <> HedgeDelayOf p -> marked "hedge.hedge_delay" q)
  /\ (ThresholdOf q <> ThresholdOf p -> marked "circuit.threshold" q)
  /\ (CooldownOf q <> CooldownOf p -> marked "circuit.cooldown" q).
Proof.
  intros H. pose proof (touch_recorded _ _ _ (Normalize_touch _ _ H)) as R.
  unfold recorded in R.
  repeat match goal with H : _ /\ _ |- _ => destruct H end.
  repeat match goal with |- _ /\ _ => split end; intros Hne;
    match goal with
    | H : ?x q = ?x p \/ marked ?f q |- marked ?f q =>
      destruct H as [H|H]; [contradiction|exact H]
    end.
Qed.

Lemma Normalize_records_changes_witness :
  Normalize untidyPolicy = Some untidyNormalized
  /\ MaxAttemptsOf untidyNormalized <> MaxAttemptsOf untidyPolicy
  /\ marked "retry.max_attempts" untidyNormalized.
Proof.
  assert (E : Normalize untidyPolicy = Some untidyNormalized)
    by (vm_compute; reflexivity).
  split; [exact E|].
  assert (Hne : MaxAttemptsOf untidyNormalized <> MaxAttemptsOf untidyPolicy)
    by (intros Hc; vm_compute in Hc; discriminate Hc).
  split; [exact Hne|].
  exact (proj1 (Normalize_records_changes _ _ E) Hne).
Defined.

(** X6. [Normalize] only appends to [ChangedFields]: the paths already
    recorded stay in front, every appended path is one [Normalize] may
    assign for the flags of the policy, a list without repetition stays
    without repetition, and a [Changed] flag that was set stays set. *)
Theorem Normalize_appends_paths p q :
  Normalize p = Some q ->
  (exists l, ChangedFieldsOf q = ChangedFieldsOf p ++ l
             /\ (forall f, In f l -> In f (touchedPaths p))
             /\ (ChangedOf p = false -> l <> [] -> ChangedOf q = true))
  /\ (ChangedOf p = true -> ChangedOf q = true)
  /\ (NoDup (ChangedFieldsOf p) -> NoDup (ChangedFieldsOf q)).
Proof. intros H. exact (touch_grows _ _ _ (Normalize_touch _ _ H)). Qed.

Lemma Normalize_appends_paths_witness :
  Normalize untidyPolicy = Some untidyNormalized
  /\ NoDup (ChangedFieldsOf untidyNormalized)
  /\ List.length (ChangedFieldsOf untidyNormalized) = 12%nat.
Proof.
  assert (E : Normalize untidyPolicy = Some untidyNormalized)
    by (vm_compute; reflexivity).
  split; [exact E|]. split; [|reflexivity].
  apply (proj2 (proj2 (Normalize_appends_paths _ _ E))). constructor.
Defined.

End NormalizeTrace.

(** ** Guardrails as a contract *)

Section GuardrailProperties.

Import policy.

Lemma SFleb_true_SFltb_false x y : SFleb x y = true -> SFltb y x = false.
Proof.
  unfold SFleb, SFltb. rewrite (SFcompare_antisym x y).
  destruct (SFcompare x y) as [[| |]|]; cbn; congruence.
Qed.

Lemma SFleb_one_nonzero x : SFleb f64_1 x = true -> SFeqb x f64_0 = false.
Proof. destruct x as [s|s| |s m e]; try reflexivity; try (destruct s; reflexivity).
  destruct s; discriminate. Qed.

(** X7. What a successful [Normalize] guarantees of its result. *)
Theorem Normalize_establishes_guardrails p q :
  Normalize p = Some q ->
  1 <= MaxAttemptsOf q <= 10
  /\ 1 * time.Millisecond <= InitialBackoffOf q <= MaxBackoffOf q
  /\ (MaxBackoffOf q <= 30 * time.Second \/ MaxBackoffOf q = InitialBackoffOf q)
  /\ (isNaN (BackoffMultiplierOf q) = false ->
      SFleb f64_1 (BackoffMultiplierOf q) = true
      /\ SFleb (BackoffMultiplierOf q) f64_10 = true)
  /\ (JitterOf q = JitterNone \/ JitterOf q = JitterFull \/ JitterOf q = JitterEqual)
  /\ (TimeoutPerAttemptOf q = 0 \/ 1 * time.Millisecond <= TimeoutPerAttemptOf q)
  /\ (OverallTimeoutOf q = 0 \/ 1 * time.Millisecond <= OverallTimeoutOf q)
  /\ 1 <= RetryCostOf q
  /\ 1 <= HedgeCostOf q
  /\ (HedgeEnabledOf q = true ->
      1 <= MaxHedgesOf q <= 3
      /\ 10 * time.Millisecond <= HedgeDelayOf q
      /\ (CircuitEnabledOf q = true ->
          1 <= ThresholdOf q /\ 100 * time.Millisecond <= CooldownOf q)).
Proof.
  intros H. apply Normalize_Normalized in H. destruct H as [H9 Hh].
  unfold upto in H9; cbn [firstn oks allOk] in H9.
  destruct H9 as (H1 & H2 & H3 & H4 & H5 & H6 & H7 & H8 & H9 & _).
  unfold okMaxAttempts, okInitialBackoff, okMaxBackoff, okBackoffMultiplier, okJitter,
    okTimeoutPerAttempt, okOverallTimeout, okRetryCost, okHedgeCost, okMaxHedges,
    okHedgeDelay, okThreshold, okCooldown,
    maxRetryAttempts, minBackoffFloor, maxBackoffCeiling, maxBackoffMultiplier,
    minTimeoutFloor, maxHedges, minHedgeDelayFloor, minCircuitThreshold,
    minCircuitCooldown in *.
  split; [lia|]. split; [lia|]. split; [lia|]. split.
  { intros Hn. split; apply SFltb_false_SFleb; first [assumption|reflexivity|tauto]. }
  split; [exact H5|]. split; [exact H6|]. split; [exact H7|].
  split; [exact H8|]. split; [exact H9|].
  intros He. destruct (Hh He) as (Hm & Hd & Hc). split; [lia|]. split; [lia|].
  intros Hce. destruct (Hc Hce). lia.
Qed.

Lemma Normalize_establishes_guardrails_witness :
  Normalize untidyPolicy = Some untidyNormalized
  /\ 1 <= MaxAttemptsOf untidyNormalized <= 10
  /\ MaxBackoffOf untidyNormalized = InitialBackoffOf untidyNormalized.
Proof.
  assert (E : Normalize untidyPolicy = Some untidyNormalized)
    by (vm_compute; reflexivity).
  split; [exact E|].
  split; [exact (proj1 (Normalize_establishes_guardrails _ _ E))|reflexivity].
Defined.

(** The guardrails of the data model, as tests on a policy. *)
Definition withinGuardrails (p : EffectivePolicy) : Prop :=
  1 <= MaxAttemptsOf p <= 10
  /\ 1 * time.Millisecond <= InitialBackoffOf p <= MaxBackoffOf p
  /\ MaxBackoffOf p <= 30 * time.Second
  /\ SFleb f64_1 (BackoffMultiplierOf p) = true
  /\ SFleb (BackoffMultiplierOf p) f64_10 = true
  /\ (JitterOf p = JitterNone \/ JitterOf p = JitterFull \/ JitterOf p = JitterEqual)
  /\ (TimeoutPerAttemptOf p = 0 \/ 1 * time.Millisecond <= TimeoutPerAttemptOf p)
  /\ (OverallTimeoutOf p = 0 \/ 1 * time.Millisecond <= OverallTimeoutOf p)
  /\ 1 <= RetryCostOf p
  /\ 1 <= HedgeCostOf p
  /\ (HedgeEnabledOf p = true ->
      1 <= MaxHedgesOf p <= 3
      /\ 10 * time.Millisecond <= HedgeDelayOf p
      /\ (CircuitEnabledOf p = true ->
          1 <= ThresholdOf p /\ 100 * time.Millisecond <= CooldownOf p)).

Lemma withinGuardrails_Normalized p : withinGuardrails p -> Normalized p.
Proof.
  intros (H1 & H2 & H3 & H4a & H4b & H5 & H6 & H7 & H8 & H9 & Hh).
  unfold Normalized, upto. cbn [firstn oks allOk].
  unfold okMaxAttempts, okInitialBackoff, okMaxBackoff, okBackoffMultiplier, okJitter,
    okTimeoutPerAttempt, okOverallTimeout, okRetryCost, okHedgeCost, okMaxHedges,
    okHedgeDelay, okThreshold, okCooldown,
    maxRetryAttempts, minBackoffFloor, maxBackoffCeiling, maxBackoffMultiplier,
    minTimeoutFloor, maxHedges, minHedgeDelayFloor, minCircuitThreshold,
    minCircuitCooldown, time.Millisecond, time.Second in *.
  split.
  - split; [lia|]. split; [lia|]. split; [left; lia|]. split.
    { split; [now apply SFleb_one_nonzero|].
      split; now apply SFleb_true_SFltb_false. }
    tauto.
  - intros He. destruct (Hh He) as (Hm & Hd & Hc). split; [lia|]. split; [lia|].
    intros Hce. destruct (Hc Hce). lia.
Qed.

(** X8. A policy within the guardrails is returned by [Normalize] as it
    is, metadata included: nothing is assigned and nothing is recorded. *)
Theorem Normalize_within_guardrails p : withinGuardrails p -> Normalize p = Some p.
Proof. intros H. apply Normalized_fixpoint. now apply withinGuardrails_Normalized. Qed.

(** X9. When the default policy with the options applied is within the
    guardrails, [NewFromKey] returns exactly that policy. *)
Theorem NewFromKey_within_guardrails key opts :
  withinGuardrails (applyOptions opts (DefaultPolicyFor key)) ->
  NewFromKey key opts = applyOptions opts (DefaultPolicyFor key).
Proof.
  intros H. apply withinGuardrails_Normalized, Normalized_fixpoint in H.
  unfold NewFromKey, applyOptions in *. cbv zeta. now rewrite H.
Qed.

Ltac guardrails_tac :=
  unfold withinGuardrails;
  repeat match goal with
         | |- _ /\ _ => split
         | |- _ = true -> _ => intro
         end;
  first [ vm_compute; reflexivity
        | vm_compute; (let Hc := fresh in intro Hc; discriminate Hc)
        | left; vm_compute; reflexivity
        | right; left; vm_compute; reflexivity
        | right; right; vm_compute; reflexivity
        | right; vm_compute; (let Hc := fresh in intro Hc; discriminate Hc)
        | exfalso; match goal with H : _ = true |- _ => vm_compute in H; discriminate H end ].

(** The presets are within the guardrails, whatever the key. *)
Lemma presets_withinGuardrails key :
  withinGuardrails (HTTPDefaults (DefaultPolicyFor key))
  /\ withinGuardrails (DatabaseDefaults (DefaultPolicyFor key))
  /\ withinGuardrails (BackgroundJobDefaults (DefaultPolicyFor key))
  /\ withinGuardrails (LowLatencyDefaults (DefaultPolicyFor key)).
Proof. split; [|split; [|split]]; guardrails_tac. Qed.

Lemma Normalize_within_guardrails_witness :
  withinGuardrails (LowLatencyDefaults (DefaultPolicyFor demoKey))
  /\ Normalize (LowLatencyDefaults (DefaultPolicyFor demoKey))
     = Some (LowLatencyDefaults (DefaultPolicyFor demoKey)).
Proof.
  assert (H : withinGuardrails (LowLatencyDefaults (DefaultPolicyFor demoKey)))
    by exact (proj2 (proj2 (proj2 (presets_withinGuardrails demoKey)))).
  split; [exact H|]. exact (Normalize_within_guardrails _ H).
Defined.

Lemma NewFromKey_within_guardrails_witness :
  withinGuardrails (applyOptions [ HTTPDefaults ] (DefaultPolicyFor demoKey))
  /\ NewFromKey demoKey [ HTTPDefaults ] = HTTPDefaults (DefaultPolicyFor demoKey).
Proof.
  assert (H : withinGuardrails (applyOptions [ HTTPDefaults ] (DefaultPolicyFor demoKey)))
    by exact (proj1 (presets_withinGuardrails demoKey)).
  split; [exact H|]. exact (NewFromKey_within_guardrails demoKey [ HTTPDefaults ] H).
Defined.

End GuardrailProperties.

(** ** Canonical form of parsed keys *)

Section KeyCanonicalForm.

Import policy strings.

Lemma stripPrefix_split w s r : stripPrefix w s = Some r -> s = w ++ r.
Proof.
  revert s; induction w as [|c w IH]; intros s H; simpl in *.
  - now inversion H.
  - destruct s as [|d s]; [discriminate|].
    destruct (Ascii.eqb_spec c d); [|discriminate]. subst. now rewrite (IH _ H).
Qed.

Lemma stripPrefix_app w s r post :
  stripPrefix w s = Some r -> stripPrefix w (s ++ post) = Some (r ++ post).
Proof.
  revert s; induction w as [|c w IH]; intros s H; simpl in *.
  - now inversion H.
  - destruct s as [|d s]; [discriminate|]. simpl.
    destruct (Ascii.eqb c d); [now apply IH|discriminate].
Qed.

Lemma stripAny_split enc s r : stripAny enc s = Some r -> exists w, s = w ++ r.
Proof.
  induction enc as [|w enc IH]; simpl; [discriminate|].
  destruct (stripPrefix w s) eqn:E; [|exact IH].
  intros H; inversion H; subst. exists w. now apply stripPrefix_split.
Qed.

Lemma stripAny_app enc s post :
  stripAny enc s <> None -> stripAny enc (s ++ post) <> None.
Proof.
  induction enc as [|w enc IH]; simpl; [tauto|].
  destruct (stripPrefix w s) eqn:E.
  - intros _. now rewrite (stripPrefix_app _ _ _ post E).
  - intros H. destruct (stripPrefix w (s ++ post)); [discriminate|auto].
Qed.

Lemma stripAny_nil enc : (forall w, In w enc -> w <> []) -> stripAny enc [] = None.
Proof.
  induction enc as [|w enc IH]; simpl; intros H; [reflexivity|].
  destruct w; [exfalso; apply (H []); auto|]. simpl. apply IH. auto.
Qed.

Lemma trimFront_done enc fuel : forall s,
  (forall w, In w enc -> w <> []) ->
  (List.length s <= fuel)%nat -> stripAny enc (trimFront enc fuel s) = None.
Proof.
  induction fuel as [|fuel IH]; intros s Henc Hl; simpl.
  - destruct s; [now apply stripAny_nil|simpl in Hl; lia].
  - destruct (stripAny enc s) eqn:E; [|exact E].
    apply IH; [assumption|]. apply stripAny_length in E; [lia|assumption].
Qed.

Lemma trimFront_suffix enc fuel : forall s,
  exists pre, s = pre ++ trimFront enc fuel s.
Proof.
  induction fuel as [|fuel IH]; intros s; simpl; [now exists []|].
  destruct (stripAny enc s) eqn:E; [|now exists []].
  destruct (stripAny_split _ _ _ E) as [w ->]. destruct (IH l) as [pre Hp].
  exists (w ++ pre). now rewrite <- app_assoc, <- Hp.
Qed.

(** What [TrimSpace] keeps is an infix of its argument. *)
Lemma trim_infix l :
  exists pre post, l = pre ++ trimRightSpace (trimLeftSpace l) ++ post.
Proof.
  unfold trimLeftSpace, trimRightSpace.
  destruct (trimFront_suffix spaceEncodings (List.length l) l) as [pre Hp].
  set (x := trimFront spaceEncodings (List.length l) l) in *.
  destruct (trimFront_suffix (map (@rev ascii) spaceEncodings) (List.length x) (rev x))
    as [post Hq].
  set (z := trimFront _ (List.length x) (rev x)) in *.
  exists pre, (rev post). rewrite <- rev_app_distr, <- Hq, rev_involutive. exact Hp.
Qed.

Lemma trim_is_trimmed l : trimmed (trimRightSpace (trimLeftSpace l)).
Proof.
  unfold trimLeftSpace, trimRightSpace.
  pose proof (trimFront_done spaceEncodings (List.length l) l
                spaceEncodings_nonempty (le_n _)) as Hx.
  set (x := trimFront spaceEncodings (List.length l) l) in *.
  pose proof (trimFront_done (map (@rev ascii) spaceEncodings) (List.length x) (rev x)
                revEncodings_nonempty) as Hz.
  rewrite length_rev in Hz. specialize (Hz (le_n _)).
  destruct (trimFront_suffix (map (@rev ascii) spaceEncodings) (List.length x) (rev x))
    as [post Hq].
  set (z := trimFront _ (List.length x) (rev x)) in *.
  split.
  - destruct (stripAny spaceEncodings (rev z)) eqn:E; [|reflexivity].
    exfalso. apply (stripAny_app spaceEncodings (rev z) (rev post)); [congruence|].
    rewrite <- rev_app_distr, <- Hq, rev_involutive. exact Hx.
  - rewrite rev_involutive. exact Hz.
Qed.

Lemma TrimSpace_idempotent s : TrimSpace (TrimSpace s) = TrimSpace s.
Proof.
  apply TrimSpace_trimmed. unfold TrimSpace.
  rewrite list_ascii_of_string_of_list_ascii. apply trim_is_trimmed.
Qed.

Lemma IndexByte_absent s c : IndexByte s c = -1 <-> ~ In c (list_ascii_of_string s).
Proof.
  induction s as [|d s IH]; simpl.
  - split; [tauto|reflexivity].
  - destruct (Ascii.eqb_spec d c) as [->|Hdc].
    + split; [discriminate|]. intros H. exfalso. apply H. now left.
    + pose proof (IndexByte_bounds s c) as Hb.
      destruct (IndexByte s c <? 0) eqn:E.
      * assert (IndexByte s c = -1) as Ha by lia. rewrite IH in Ha.
        split; [|reflexivity]. intros _ [H|H]; [congruence|tauto].
      * split; [lia|]. intros Hn. exfalso.
        assert (IndexByte s c <> -1) as Hne by lia. apply Hne, IH. tauto.
Qed.

Lemma TrimSpace_In s c :
  In c (list_ascii_of_string (TrimSpace s)) -> In c (list_ascii_of_string s).
Proof.
  unfold TrimSpace. rewrite list_ascii_of_string_of_list_ascii.
  destruct (trim_infix (list_ascii_of_string s)) as (pre & post & E).
  intros H. rewrite E. apply in_or_app. right. apply in_or_app. now left.
Qed.

Lemma TrimSpace_no_byte s c : IndexByte s c = -1 -> IndexByte (TrimSpace s) c = -1.
Proof. rewrite !IndexByte_absent. intros H Hin. apply H. now apply TrimSpace_In. Qed.

(** The first occurrence of [c] splits [s]. *)
Lemma IndexByte_split s c :
  0 <= IndexByte s c ->
  exists a b, s = (a ++ String c b)%string
              /\ IndexByte a c = -1
              /\ IndexByte s c = Z.of_nat (String.length a).
Proof.
  induction s as [|d s IH]; simpl; [lia|].
  destruct (Ascii.eqb_spec d c) as [->|Hdc].
  - intros _. exists "", s. repeat split.
  - destruct (IndexByte s c <? 0) eqn:E; [lia|]. intros _.
    destruct IH as (a & b & Hs & Ha & Hi); [lia|].
    exists (String d a), b. simpl. rewrite <- Hs. split; [reflexivity|].
    destruct (Ascii.eqb_spec d c); [contradiction|]. rewrite Ha. simpl.
    split; [reflexivity|]. lia.
Qed.

(** The cases of [ParseKey], on the trimmed input. *)
Lemma ParseKey_cases s :
  let t := TrimSpace s in
  (t = "" /\ ParseKey s = PolicyKey.mk "" "")
  \/ (t <> "" /\ IndexByte t "." = -1 /\ ParseKey s = PolicyKey.mk "" t)
  \/ (exists a b, t = (a ++ String "." b)%string /\ IndexByte a "." = -1
        /\ ((TrimSpace b = "" /\ ParseKey s = PolicyKey.mk "" t)
            \/ (TrimSpace b <> ""
                /\ ParseKey s = PolicyKey.mk (TrimSpace a) (TrimSpace b)))).
Proof.
  cbv zeta. unfold ParseKey. cbv zeta.
  generalize (TrimSpace s). intros t.
  destruct (String.eqb_spec t "") as [E|E]; [left; tauto|right].
  pose proof (IndexByte_bounds t ".") as Hb.
  destruct (IndexByte t "." <? 0) eqn:Ei.
  - left. repeat split; [assumption|lia].
  - right. destruct (IndexByte_split t ".") as (a & b & Hs & Ha & Hi); [lia|].
    exists a, b. split; [exact Hs|]. split; [exact Ha|].
    rewrite Hi. subst t. rewrite sliceTo_app, sliceFrom_app.
    destruct (String.eqb_spec (TrimSpace b) ""); [left|right]; tauto.
Qed.

Lemma ParseKey_TrimSpace s : ParseKey (TrimSpace s) = ParseKey s.
Proof. unfold ParseKey. cbv zeta. now rewrite TrimSpace_idempotent. Qed.

(** The fields of a parsed key. *)
Lemma ParseKey_fields s :
  TrimSpace (PolicyKey.Namespace (ParseKey s)) = PolicyKey.Namespace (ParseKey s)
  /\ TrimSpace (PolicyKey.Name (ParseKey s)) = PolicyKey.Name (ParseKey s)
  /\ IndexByte (PolicyKey.Namespace (ParseKey s)) "." = -1
  /\ (PolicyKey.Name (ParseKey s) = "" <-> TrimSpace s = "")
  /\ (PolicyKey.Name (ParseKey s) = "" -> PolicyKey.Namespace (ParseKey s) = "").
Proof.
  assert (TrimSpace "" = "") as T0 by (vm_compute; reflexivity).
  destruct (ParseKey_cases s)
    as [[Ht ->] | [(Ht & Hd & ->) | (a & b & Ht & Ha & [[Hb ->] | [Hb ->]])]];
    cbn [PolicyKey.Namespace PolicyKey.Name].
  - repeat split; auto.
  - repeat split; auto using TrimSpace_idempotent.
  - repeat split; auto using TrimSpace_idempotent.
  - split; [apply TrimSpace_idempotent|]. split; [apply TrimSpace_idempotent|].
    split; [now apply TrimSpace_no_byte|]. split; [|contradiction].
    split; [contradiction|]. rewrite Ht. destruct a; discriminate.
Qed.

(** X10. [ParseKey] returns keys in canonical form, whatever the input:
    [TrimSpace] leaves the namespace and the name unchanged, the namespace
    holds no dot, the name is empty exactly when the input is blank (empty
    after trimming), and then the namespace is empty too. *)
Theorem ParseKey_canonical s :
  TrimSpace (PolicyKey.Namespace (ParseKey s)) = PolicyKey.Namespace (ParseKey s)
  /\ TrimSpace (PolicyKey.Name (ParseKey s)) = PolicyKey.Name (ParseKey s)
  /\ IndexByte (PolicyKey.Namespace (ParseKey s)) "." = -1
  /\ (PolicyKey.Name (ParseKey s) = "" <-> TrimSpace s = "")
  /\ (PolicyKey.Name (ParseKey s) = "" -> PolicyKey.Namespace (ParseKey s) = "").
Proof. exact (ParseKey_fields s). Qed.

(** X11. Parsing, printing and parsing again gives the first parse, for
    every input whose parsed key has a namespace or has no dot in its name
    (a key with an empty namespace and a dotted name prints as a string
    whose first dot splits it again). *)
Theorem ParseKey_String_ParseKey s :
  PolicyKey.Namespace (ParseKey s) <> ""
  \/ IndexByte (PolicyKey.Name (ParseKey s)) "." = -1 ->
  ParseKey (PolicyKey_String (ParseKey s)) = ParseKey s.
Proof.
  intros H. destruct (ParseKey_fields s) as (Tns & Tname & Hdot & Hname & _).
  destruct (String.eqb_spec (PolicyKey.Namespace (ParseKey s)) "") as [Ens|Ens].
  - destruct H as [H|H]; [contradiction|].
    destruct (ParseKey s) as [ns name] eqn:Ek;
      cbn [PolicyKey.Namespace PolicyKey.Name] in *. subst ns.
    unfold PolicyKey_String; cbn [PolicyKey.Namespace PolicyKey.Name].
    change (("" =? "")%string) with true. cbv iota.
    destruct (String.eqb_spec name "") as [->|Hn].
    + vm_compute; reflexivity.
    + now apply ParseKey_no_dot.
  - apply ParseKey_String; auto. intros Hn. apply Hname in Hn.
    destruct (ParseKey_cases s)
      as [[Ht E] | [(Ht & Hd & E) | (a & b & Ht & Ha & [[Hb E] | [Hb E]])]];
      rewrite E in Ens; cbn [PolicyKey.Namespace] in Ens; try congruence.
    rewrite Ht in Hn. destruct a; discriminate.
Qed.

Definition paddedKey : string := "  billing . Charge.v2 ".

Lemma ParseKey_String_ParseKey_witness :
  ParseKey paddedKey = PolicyKey.mk "billing" "Charge.v2"
  /\ ParseKey (PolicyKey_String (ParseKey paddedKey)) = ParseKey paddedKey.
Proof.
  split; [vm_compute; reflexivity|].
  apply (ParseKey_String_ParseKey paddedKey).
  left. vm_compute. discriminate.
Defined.

(** X12. [ParseKey] ignores surrounding white space: a string and its
    trimmed form parse to the same key, and [TrimSpace] is idempotent. *)
Theorem ParseKey_ignores_padding s :
  ParseKey (TrimSpace s) = ParseKey s /\ TrimSpace (TrimSpace s) = TrimSpace s.
Proof. split; [apply ParseKey_TrimSpace|apply TrimSpace_idempotent]. Qed.

End KeyCanonicalForm.

(** ** Accounting of a retry group *)

Section GroupAccounting.

Import policy retry.

Variable V : Type.
Variable key : PolicyKey.t.
Variable pol : EffectivePolicy.
Variable triggers : option hedge.Registry.
Variable ctxErr : error.

(** The budget handles an attempt releases. *)
Definition releasesOf (effects : list (Effect V)) : list nat :=
  flat_map (fun e => match e with Release _ handle => [ handle ] | _ => [] end) effects.

Definition handleOf (d : budget.Decision) : list nat :=
  match budget.Release d with Some handle => [ handle ] | None => [] end.

(** The capacity of the channel [results]. *)
Definition resultsCap : Z := 1 + maxHedges pol.

(** X13. An attempt goroutine, whatever the budget gate and [op] answer:
    it asks the gate first, hands one record to [recordAttempt] and then
    sends one result, releases the budget handle after the send, exactly
    when the attempt was allowed and the decision carries one, and
    decrements [activeAttempts] last.  [op] is called once when the attempt
    is allowed and never otherwise, with [Attempt] and [RetryIndex] both
    set to the retry index.  The record and the result agree on the hedge
    flag, the hedge index, the start time and the outcome; the record
    carries the decision's reason, and the previous backoff only for a
    primary. *)
Theorem launch_accounting retryIdx lastBackoff env (i : Z) (hedged : bool) :
  let budgetRef := if hedged then HedgePolicy.Budget (Hedge pol)
                   else RetryPolicy.Budget (Retry pol) in
  let budgetKind := if hedged then budget.KindHedge else budget.KindRetry in
  let decision := fst (allowAttempt V env key budgetRef retryIdx budgetKind) in
  let allowed := snd (allowAttempt V env key budgetRef retryIdx budgetKind) in
  let info := observe.mkAttemptInfo retryIdx retryIdx hedged i (ID pol) in
  exists pre rec res,
    launch V key pol retryIdx lastBackoff env i hedged
    = AllowAttempt V key budgetRef retryIdx budgetKind
      :: pre ++ [ RecordAttempt V rec; Send V res ]
         ++ map (Release V) (if allowed then handleOf decision else [])
         ++ [ Done V ]
    /\ recordsOf V pre = [] /\ sentOf V pre = [] /\ releasesOf pre = []
    /\ opCalls V pre = (if allowed then [ info ] else [])
    /\ observe.IsHedge rec = hedged /\ isHedge V res = hedged
    /\ observe.HedgeIndex rec = i /\ idx V res = i
    /\ observe.StartTime rec = start V res
    /\ observe.Outcome rec = outcome V res
    /\ observe.BudgetAllowed rec = allowed
    /\ observe.BudgetReason rec = budget.Reason decision
    /\ observe.Backoff rec = (if hedged then 0 else lastBackoff).
Proof.
  cbv zeta. unfold launch, handleOf.
  destruct (allowAttempt _ _ _ _ _ _) as [decision allowed]. cbn [fst snd].
  destruct allowed; cbn [negb].
  - destruct (op _ _ _) as [v e]. destruct (classify _ _ _ _) as [o pe].
    destruct hedged.
    + eexists [ _; _ ], _, _. split.
      { destruct (budget.Release decision); reflexivity. }
      repeat split; reflexivity.
    + eexists [ _ ], _, _. split.
      { destruct (budget.Release decision); reflexivity. }
      repeat split; reflexivity.
  - exists [ ]. do 2 eexists. split; [reflexivity|]. repeat split; reflexivity.
Qed.

Lemma sentOf_app a b : sentOf V (a ++ b) = sentOf V a ++ sentOf V b.
Proof. unfold sentOf. apply flat_map_app. Qed.

Lemma opCalls_app a b : opCalls V (a ++ b) = opCalls V a ++ opCalls V b.
Proof. unfold opCalls. apply flat_map_app. Qed.

(** What one attempt hands over: one record, one result, both with the
    attempt's hedge index and flag, and at most one call of [op]. *)
Lemma launch_summary retryIdx lastBackoff env (i : Z) (hedged : bool) :
  exists rec res,
    recordsOf V (launch V key pol retryIdx lastBackoff env i hedged) = [ rec ]
    /\ sentOf V (launch V key pol retryIdx lastBackoff env i hedged) = [ res ]
    /\ observe.HedgeIndex rec = i /\ observe.IsHedge rec = hedged
    /\ idx V res = i /\ isHedge V res = hedged
    /\ (List.length (opCalls V (launch V key pol retryIdx lastBackoff env i hedged))
        <= 1)%nat.
Proof.
  unfold launch. destruct (allowAttempt _ _ _ _ _ _) as [decision allowed].
  destruct allowed; cbn [negb].
  - destruct (op _ _ _) as [v e]. destruct (classify _ _ _ _) as [o pe].
    destruct hedged; destruct (budget.Release decision);
      do 2 eexists; cbn; repeat split; lia.
  - do 2 eexists; cbn; repeat split; lia.
Qed.

Definition hedgeLaunches (effects : list SpawnerEffect) : list (Z * bool) :=
  flat_map (fun e => match e with
                     | Launch idx isHedge => [ (idx, isHedge) ]
                     | TickerReset _ => []
                     end) effects.

Lemma hedgeLaunches_app a b : hedgeLaunches (a ++ b) = hedgeLaunches a ++ hedgeLaunches b.
Proof. unfold hedgeLaunches. apply flat_map_app. Qed.

(** The hedges after [h] launched ones are numbered [h + 1, h + 2, ...]. *)
Definition hedgesFrom (h : Z) (n : nat) : list (Z * bool) :=
  map (fun k => (h + Z.of_nat k, true)) (seq 1 n).

Lemma hedgesFrom_S h n : hedgesFrom h (S n) = (h + 1, true) :: hedgesFrom (h + 1) n.
Proof.
  unfold hedgesFrom. cbn [seq map]. f_equal. rewrite <- seq_shift, map_map.
  apply map_ext. intros k. f_equal. lia.
Qed.

Lemma spawnerLoop_indices trig start events : forall h,
  hedgeLaunches (spawnerLoop pol trig start h events)
  = hedgesFrom h (hedgeCount (spawnerLoop pol trig start h events)).
Proof.
  induction events as [|e events IH]; intros h; cbn [spawnerLoop]; [reflexivity|].
  destruct e as [|now]; [reflexivity|].
  destruct (h >=? maxHedges pol); [reflexivity|].
  destruct (trig _) as [should nextCheck].
  rewrite !hedgeLaunches_app, !hedgeCount_app.
  destruct should, (nextCheck >? 0); cbn [hedgeLaunches flat_map app hedgeCount filter
    List.length Nat.add]; rewrite IH; try reflexivity;
    now rewrite hedgesFrom_S.
Qed.

Lemma launches_indices start events :
  launches pol triggers start events
  = (0, false) :: hedgesFrom 0 (hedgeCount (spawner pol triggers start events)).
Proof.
  unfold launches. f_equal. fold (hedgeLaunches (spawner pol triggers start events)).
  unfold spawner. destruct (negb _); [reflexivity|]. apply spawnerLoop_indices.
Qed.

Lemma groupEffects_indices retryIdx lastBackoff attemptEnv ls :
  let eff := flat_map (fun l => launch V key pol retryIdx lastBackoff
                                  (attemptEnv (fst l)) (fst l) (snd l)) ls in
  map (fun r => (observe.HedgeIndex r, observe.IsHedge r)) (recordsOf V eff) = ls
  /\ map (fun r => (idx V r, isHedge V r)) (sentOf V eff) = ls
  /\ (List.length (opCalls V eff) <= List.length ls)%nat.
Proof.
  cbv zeta. induction ls as [|[i hedged] ls IH]; cbn [flat_map].
  - repeat split. cbn. lia.
  - rewrite recordsOf_app, sentOf_app, opCalls_app, !map_app, length_app.
    destruct IH as (IH1 & IH2 & IH3). rewrite IH1, IH2. cbn [fst snd].
    destruct (launch_summary retryIdx lastBackoff (attemptEnv i) i hedged)
      as (rec & res & -> & -> & <- & <- & Hi & Hh & Hop).
    cbn [map app List.length]. rewrite Hi, Hh. repeat split. lia.
Qed.

Lemma NoDup_map_of_nat l : NoDup l -> NoDup (map Z.of_nat l).
Proof.
  induction 1 as [|x l Hx Hl IH]; cbn [map]; constructor; [|assumption].
  rewrite in_map_iff. intros (y & Hy & Hin).
  apply Nat2Z.inj in Hy. now subst.
Qed.

(** X14. Within a retry group the records, and likewise the results sent,
    come with the hedge indices 0, 1, ..., n in launch order, n being the
    number of hedges the spawner launched: index 0 is the primary, the one
    attempt with [IsHedge = false], and the hedge indices of the group's
    records are pairwise distinct. *)
Theorem group_hedge_indices retryIdx lastBackoff (g : GroupSchedule V) :
  let n := hedgeCount (spawner pol triggers (groupStart V g) (spawnerEvents V g)) in
  map (fun r => (observe.HedgeIndex r, observe.IsHedge r))
    (groupRecords V key pol triggers retryIdx lastBackoff g)
  = (0, false) :: map (fun k => (Z.of_nat k, true)) (seq 1 n)
  /\ map (fun r => (idx V r, isHedge V r))
       (sentOf V (groupEffects V key pol triggers retryIdx lastBackoff g))
     = (0, false) :: map (fun k => (Z.of_nat k, true)) (seq 1 n)
  /\ NoDup (map observe.HedgeIndex
              (groupRecords V key pol triggers retryIdx lastBackoff g)).
Proof.
  cbv zeta. unfold groupRecords, groupEffects.
  destruct (groupEffects_indices retryIdx lastBackoff (attemptEnv V g)
              (launches pol triggers (groupStart V g) (spawnerEvents V g)))
    as (Hr & Hs & _).
  rewrite launches_indices in Hr, Hs |- *. unfold hedgesFrom in *.
  cbn [Z.add] in *. split; [exact Hr|]. split; [exact Hs|].
  set (recs := recordsOf V _) in *.
  replace (map observe.HedgeIndex recs)
    with (map fst (map (fun r => (observe.HedgeIndex r, observe.IsHedge r)) recs))
    by (rewrite map_map; reflexivity).
  rewrite Hr. cbn [map fst]. rewrite map_map. cbn [fst].
  change (0 :: map (fun k => Z.of_nat k) (seq 1 (hedgeCount
            (spawner pol triggers (groupStart V g) (spawnerEvents V g)))))
    with (map Z.of_nat (seq 0 (S (hedgeCount
            (spawner pol triggers (groupStart V g) (spawnerEvents V g)))))).
  apply NoDup_map_of_nat, seq_NoDup.
Qed.

(** X15. When the local [maxHedges] is not negative, the attempts of a
    group send at most [1 + maxHedges] results, the capacity of the
    channel, so that no send blocks; [op] is called at most that many
    times; and there are as many results sent as records. *)
Theorem group_sends_fit_buffer retryIdx lastBackoff (g : GroupSchedule V) :
  0 <= maxHedges pol ->
  Z.of_nat (List.length (sentOf V (groupEffects V key pol triggers retryIdx lastBackoff g)))
  <= resultsCap
  /\ Z.of_nat (List.length (opCalls V (groupEffects V key pol triggers retryIdx lastBackoff g)))
     <= resultsCap
  /\ List.length (sentOf V (groupEffects V key pol triggers retryIdx lastBackoff g))
     = List.length (groupRecords V key pol triggers retryIdx lastBackoff g).
Proof.
  intros Hm. unfold groupRecords, groupEffects, resultsCap.
  destruct (groupEffects_indices retryIdx lastBackoff (attemptEnv V g)
              (launches pol triggers (groupStart V g) (spawnerEvents V g)))
    as (Hr & Hs & Ho).
  apply (f_equal (@List.length _)) in Hr, Hs. rewrite length_map in Hr, Hs.
  pose proof (launches_bound pol triggers (groupStart V g) (spawnerEvents V g) Hm) as Hb.
  set (m := maxHedges pol) in *.
  split; [lia|]. split; [lia|]. congruence.
Qed.

(** *** The coordinator loop *)

Definition isKind (k : classify.OutcomeKind) (res : groupResult V) : bool :=
  classify.OutcomeKind_eqb (classify.Kind (outcome V res)) k.

(** The cases of the [select] that make the coordinator return. *)
Definition decides (c : SelectCase V) : bool :=
  match c with
  | CtxDone _ => true
  | RecvResult _ res active =>
    isKind classify.OutcomeSuccess res
    || (HedgePolicy.CancelOnFirstTerminal (Hedge pol)
        && (isKind classify.OutcomeNonRetryable res || isKind classify.OutcomeAbort res))
    || (active =? 0)
  end.

(** What the coordinator returns on such a case. *)
Definition returnOf (c : SelectCase V) : GroupReturn V :=
  match c with
  | CtxDone _ =>
    (None, ctxErr, classify.mkOutcome classify.OutcomeAbort "context_canceled" [] 0, false)
  | RecvResult _ res _ =>
    if isKind classify.OutcomeSuccess res
    then (val V res, None, outcome V res, true)
    else (val V res, err V res, outcome V res, false)
  end.

Lemma waitLoop_decides c cases lastRel failures :
  decides c = true ->
  waitLoop V pol ctxErr lastRel failures (c :: cases) = Some (returnOf c).
Proof.
  destruct c as [res active|]; cbn [waitLoop decides returnOf]; [|reflexivity].
  unfold isKind. destruct (classify.OutcomeKind_eqb _ classify.OutcomeSuccess);
    [reflexivity|]. cbn [orb].
  destruct (HedgePolicy.CancelOnFirstTerminal (Hedge pol) && _); [reflexivity|].
  cbn [orb]. now intros ->.
Qed.

Lemma waitLoop_waits c cases lastRel failures :
  decides c = false ->
  exists lastRel' failures',
    waitLoop V pol ctxErr lastRel failures (c :: cases)
    = waitLoop V pol ctxErr lastRel' failures' cases.
Proof.
  destruct c as [res active|]; cbn [waitLoop decides]; [|discriminate].
  unfold isKind. destruct (classify.OutcomeKind_eqb _ classify.OutcomeSuccess);
    [discriminate|]. cbn [orb].
  destruct (HedgePolicy.CancelOnFirstTerminal (Hedge pol) && _); [discriminate|].
  cbn [orb]. intros ->. eauto.
Qed.

Lemma waitLoop_first_deciding pre : forall lastRel failures c rest,
  forallb (fun c => negb (decides c)) pre = true ->
  decides c = true ->
  waitLoop V pol ctxErr lastRel failures (pre ++ c :: rest) = Some (returnOf c).
Proof.
  induction pre as [|d pre IH]; intros lastRel failures c rest Hpre Hc.
  - now apply waitLoop_decides.
  - cbn [forallb] in Hpre. apply andb_prop in Hpre. destruct Hpre as [Hd Hpre].
    apply negb_true_iff in Hd. rewrite <- app_comm_cons.
    destruct (waitLoop_waits d (pre ++ c :: rest) lastRel failures Hd)
      as (l' & f' & ->). now apply IH.
Qed.

Lemma waitLoop_undecided cases : forall lastRel failures,
  forallb (fun c => negb (decides c)) cases = true ->
  waitLoop V pol ctxErr lastRel failures cases = None.
Proof.
  induction cases as [|d cases IH]; intros lastRel failures H; [reflexivity|].
  cbn [forallb] in H. apply andb_prop in H. destruct H as [Hd H].
  apply negb_true_iff in Hd.
  destruct (waitLoop_waits d cases lastRel failures Hd) as (l' & f' & ->).
  now apply IH.
Qed.

(** X16. The coordinator returns at the first case of its [select] that
    is [ctx.Done()], a Success, a result received with no attempt active,
    or, under [CancelOnFirstTerminal], a NonRetryable or an Abort; what it
    returns is read off that case alone, whatever was received before, and
    it is still waiting after every earlier case. *)
Theorem doRetryGroup_first_deciding (g : GroupSchedule V) pre c rest :
  selectCases V g = pre ++ c :: rest ->
  forallb (fun c => negb (decides c)) pre = true ->
  decides c = true ->
  doRetryGroup V pol ctxErr g = Some (returnOf c)
  /\ waitLoop V pol ctxErr (zeroGroupResult V) 0 pre = None.
Proof.
  intros Hg Hpre Hc. unfold doRetryGroup. rewrite Hg. split.
  - now apply waitLoop_first_deciding.
  - now apply waitLoop_undecided.
Qed.

Lemma waitLoop_return cases : forall lastRel failures ret,
  waitLoop V pol ctxErr lastRel failures cases = Some ret ->
  exists pre c rest,
    cases = pre ++ c :: rest
    /\ forallb (fun c => negb (decides c)) pre = true
    /\ decides c = true /\ ret = returnOf c.
Proof.
  induction cases as [|d cases IH]; intros lastRel failures ret H; [discriminate|].
  destruct (decides d) eqn:Hd.
  - rewrite waitLoop_decides in H by assumption. inversion H; subst.
    exists [], d, cases. repeat split; assumption.
  - destruct (waitLoop_waits d cases lastRel failures Hd) as (l' & f' & E).
    rewrite E in H. destruct (IH _ _ _ H) as (pre & c & rest & -> & Hp & Hc & ->).
    exists (d :: pre), c, rest. repeat split; [|assumption].
    cbn [forallb]. now rewrite Hd, Hp.
Qed.

(** X17. Whenever [doRetryGroup] returns, its success flag is true
    exactly when the returned outcome is a Success, and the error is then
    nil; the value and the outcome are either those of the context abort
    or those of one of the results received, with that result's error on
    failure. *)
Theorem doRetryGroup_ok_flag (g : GroupSchedule V) v e o (ok : bool) :
  doRetryGroup V pol ctxErr g = Some (v, e, o, ok) ->
  (ok = true <-> classify.Kind o = classify.OutcomeSuccess)
  /\ (ok = true -> e = None)
  /\ ((v = None /\ e = ctxErr
       /\ o = classify.mkOutcome classify.OutcomeAbort "context_canceled" [] 0
       /\ In (CtxDone V) (selectCases V g))
      \/ exists res active,
           In (RecvResult V res active) (selectCases V g)
           /\ v = val V res /\ o = outcome V res
           /\ (ok = false -> e = err V res)).
Proof.
  unfold doRetryGroup. intros H.
  destruct (waitLoop_return _ _ _ _ H) as (pre & c & rest & Hg & _ & _ & Hr).
  assert (Hin : In c (selectCases V g)).
  { rewrite Hg. apply in_or_app. right. now left. }
  destruct c as [res active|]; cbn [returnOf] in Hr.
  - unfold isKind in Hr.
    destruct (classify.OutcomeKind_eqb (classify.Kind (outcome V res))
                classify.OutcomeSuccess) eqn:E; inversion Hr; subst.
    + split; [|split; [reflexivity|right; exists res, active; repeat split;
                                     [assumption|discriminate]]].
      split; [|reflexivity]. intros _.
      destruct (classify.Kind (outcome V res)); try discriminate; reflexivity.
    + split; [|split; [discriminate|right; exists res, active; repeat split; assumption]].
      split; [discriminate|]. intros Hk. rewrite Hk in E. discriminate.
  - inversion Hr; subst. split; [|split; [discriminate|left; repeat split; assumption]].
    split; discriminate.
Qed.

End GroupAccounting.

Lemma group_sends_fit_buffer_witness :
  0 <= retry.maxHedges hedgedPolicy
  /\ Z.of_nat (List.length (retry.sentOf string
       (retry.groupEffects string demoKey hedgedPolicy None 0 0 hedgedGroup)))
     <= resultsCap hedgedPolicy.
Proof.
  assert (H : 0 <= retry.maxHedges hedgedPolicy) by (vm_compute; discriminate).
  split; [exact H|].
  exact (proj1 (group_sends_fit_buffer string demoKey hedgedPolicy None 0 0 hedgedGroup H)).
Defined.

Lemma doRetryGroup_first_deciding_witness :
  retry.doRetryGroup string hedgedPolicy None hedgedGroup
  = Some (returnOf string None (retry.RecvResult string hedgeResult 0)).
Proof.
  apply (doRetryGroup_first_deciding string hedgedPolicy None hedgedGroup
           [ retry.RecvResult string primaryResult 1 ]
           (retry.RecvResult string hedgeResult 0) []);
    vm_compute; reflexivity.
Defined.

Lemma doRetryGroup_ok_flag_witness :
  retry.doRetryGroup string hedgedPolicy None hedgedGroup
  = Some (None, Some "unavailable", retryable, false)
  /\ (false = true <-> classify.Kind retryable = classify.OutcomeSuccess).
Proof.
  assert (E : retry.doRetryGroup string hedgedPolicy None hedgedGroup
              = Some (None, Some "unavailable", retryable, false))
    by (vm_compute; reflexivity).
  split; [exact E|].
  exact (proj1 (doRetryGroup_ok_flag string hedgedPolicy None hedgedGroup _ _ _ _ E)).
Defined.

(** ** The spawner and its trigger *)

Section SpawnerProperties.

Import policy retry.

Variable pol : EffectivePolicy.

(** The tick cases the [select] of the spawner takes before it takes
    [groupCtx.Done()]. *)
Fixpoint ticksBefore (events : list SpawnerEvent) : nat :=
  match events with
  | Tick _ :: events' => S (ticksBefore events')
  | _ => 0%nat
  end.

Lemma spawnerLoop_paced trig start events : forall h,
  (hedgeCount (spawnerLoop pol trig start h events) <= ticksBefore events)%nat.
Proof.
  induction events as [|e events IH]; intros h; cbn [spawnerLoop ticksBefore].
  - cbn. lia.
  - destruct e as [|now]; [cbn; lia|].
    destruct (h >=? maxHedges pol); [cbn; lia|].
    destruct (trig _) as [should nextCheck].
    rewrite !hedgeCount_app.
    specialize (IH (if should then h + 1 else h)).
    destruct should, (nextCheck >? 0); cbn [hedgeCount filter List.length app] in *; lia.
Qed.

(** X18. The spawner launches at most one hedge per tick case its
    [select] takes, counting the ticks taken until it takes
    [groupCtx.Done()] and returns; a tick taken while the group context is
    already done counts like any other. *)
Theorem spawner_paced triggers start events :
  (hedgeCount (spawner pol triggers start events) <= ticksBefore events)%nat.
Proof.
  unfold spawner. destruct (negb _).
  - cbn. lia.
  - apply spawnerLoop_paced.
Qed.

(** X19. Without a trigger registry, with an empty [TriggerName], or
    with a name the registry does not know, the spawner falls back to
    [FixedDelayTrigger{Delay: pol.Hedge.HedgeDelay}]; a group then makes at
    most two attempts, the primary and one hedge, whatever [MaxHedges]. *)
Theorem default_trigger_single_hedge triggers start events :
  triggers = None
  \/ HedgePolicy.TriggerName (Hedge pol) = ""
  \/ (exists r, triggers = Some r
                /\ hedge.Get r (HedgePolicy.TriggerName (Hedge pol)) = None) ->
  resolveTrigger pol triggers
  = hedge.ShouldSpawnHedge (hedge.mkFixedDelayTrigger (HedgePolicy.HedgeDelay (Hedge pol)))
  /\ (List.length (launches pol triggers start events) <= 2)%nat.
Proof.
  intros H.
  assert (E : resolveTrigger pol triggers
              = hedge.ShouldSpawnHedge
                  (hedge.mkFixedDelayTrigger (HedgePolicy.HedgeDelay (Hedge pol)))).
  { unfold resolveTrigger. destruct H as [->|[Hn|(r & -> & Hr)]]; [reflexivity| |].
    - rewrite Hn. destruct triggers; reflexivity.
    - unfold hedge.Get in Hr. rewrite Hr. destruct (negb _); reflexivity. }
  split; [exact E|]. rewrite launches_length. unfold spawner. rewrite E.
  destruct (negb _); [cbn; lia|].
  pose proof (fixedDelay_one_hedge pol
                (hedge.mkFixedDelayTrigger (HedgePolicy.HedgeDelay (Hedge pol)))
                start events). lia.
Qed.

(** X20. On a registry made by [NewRegistry], whose map is never nil,
    [hedge.Registry.Register] panics exactly on an empty name or a nil
    trigger.  Otherwise [Get] returns the registered trigger under that
    name, every other name is answered as before, and a spawner whose
    policy names the trigger uses it.  A new registry knows no name. *)
Theorem hedge_Register_Get (r : hedge.Registry) name (t : option hedge.Trigger) :
  (hedge.Register r name t = None <-> name = "" \/ t = None)
  /\ (forall r', hedge.Register r name t = Some r' ->
        hedge.Get r' name = t
        /\ (forall n, n <> name -> hedge.Get r' n = hedge.Get r n)
        /\ (HedgePolicy.TriggerName (Hedge pol) = name ->
            forall trig, t = Some trig -> resolveTrigger pol (Some r') = trig))
  /\ (forall n, hedge.Get hedge.NewRegistry n = None).
Proof.
  unfold hedge.Register, hedge.Get. split; [|split; [|reflexivity]].
  - destruct (String.eqb_spec name ""); [tauto|]. destruct t; [|tauto].
    split; [discriminate|]. intros [?|?]; [contradiction|discriminate].
  - intros r'. destruct (String.eqb_spec name "") as [|Hne]; [discriminate|].
    destruct t as [trig|]; [|discriminate]. intros H; inversion H; subst r'; clear H.
    split; [now rewrite String.eqb_refl|]. split.
    + intros n Hn. destruct (String.eqb_spec n name); [contradiction|reflexivity].
    + intros Hname trig' Ht. inversion Ht; subst trig'. unfold resolveTrigger.
      rewrite Hname. destruct (String.eqb_spec name ""); [contradiction|].
      cbn [negb]. now rewrite String.eqb_refl.
Qed.

End SpawnerProperties.

Lemma default_trigger_single_hedge_witness :
  (List.length (retry.launches hedgedPolicy None (retry.groupStart string hedgedGroup)
                  (retry.spawnerEvents string hedgedGroup)) <= 2)%nat.
Proof.
  apply (default_trigger_single_hedge hedgedPolicy None (retry.groupStart string hedgedGroup)
           (retry.spawnerEvents string hedgedGroup)).
  left. reflexivity.
Defined.

(** ** The budget registry *)

Section BudgetRegistry.

Import budget.

Lemma notTypedNil_notNil b : internal.IsTypedNil (asAny b) = false -> notNil b = true.
Proof. destruct b; [discriminate|reflexivity]. Qed.

(** X21. After a [RegisterE] that returned no error, [Get] finds the
    budget under every name that trims to the same string as the
    registered one, with [ok = true], and answers all other names as
    before. *)
Theorem RegisterE_Get r name b r' :
  RegisterE r name b = (r', None) ->
  (forall n, strings.TrimSpace n = strings.TrimSpace name -> Get r' n = (b, true))
  /\ (forall n, strings.TrimSpace n <> strings.TrimSpace name -> Get r' n = Get r n).
Proof.
  unfold RegisterE. destruct r as [reg|]; [|discriminate]. cbv zeta.
  destruct (String.eqb_spec (strings.TrimSpace name) "") as [|Hne]; [discriminate|].
  destruct (internal.IsTypedNil (asAny b)) eqn:Hb; [discriminate|].
  intros H; inversion H; subst r'; clear H. unfold Get. cbv zeta. cbn [m]. split.
  - intros n ->. destruct (String.eqb_spec (strings.TrimSpace name) ""); [contradiction|].
    rewrite String.eqb_refl. now rewrite (notTypedNil_notNil _ Hb).
  - intros n Hn. destruct (String.eqb_spec (strings.TrimSpace n) ""); [reflexivity|].
    destruct (String.eqb_spec (strings.TrimSpace n) (strings.TrimSpace name));
      [contradiction|].
    destruct (m reg); reflexivity.
Qed.

(** X22. [RegisterE] returns an error exactly when the registry is the
    nil pointer, the name is blank, or the budget is nil or a typed nil
    ([internal.IsTypedNil]).  The registry is then left as it was,
    [Register] does nothing and [MustRegister] panics; in every other case
    [MustRegister] registers as [Register] does. *)
Theorem RegisterE_rejects r name b :
  let bad := r = None \/ strings.TrimSpace name = ""
             \/ internal.IsTypedNil (asAny b) = true in
  (snd (RegisterE r name b) <> None <-> bad)
  /\ (bad -> fst (RegisterE r name b) = r /\ Register r name b = r
             /\ exists msg, MustRegister r name b = inr msg)
  /\ (~ bad -> MustRegister r name b = inl (Register r name b)).
Proof.
  cbv zeta. unfold MustRegister, Register, RegisterE.
  destruct r as [reg|]; cbv zeta.
  2:{ split; [split; [tauto|discriminate]|]. split; [|tauto].
      intros _. repeat split. eauto. }
  destruct (String.eqb_spec (strings.TrimSpace name) "") as [Hn|Hn].
  { split; [split; [tauto|discriminate]|]. split; [|tauto].
    intros _. repeat split. eauto. }
  destruct (internal.IsTypedNil (asAny b)) eqn:Hb.
  { split; [split; [tauto|discriminate]|]. split; [|tauto].
    intros _. repeat split. eauto. }
  cbn [fst snd]. split; [|split].
  - split; [congruence|]. intros [H|[H|H]]; congruence.
  - intros [H|[H|H]]; congruence.
  - reflexivity.
Qed.

(** The registries a program can build: the nil pointer, the zero value,
    [NewRegistry()], and what [RegisterE] (hence [Register] and
    [MustRegister]) leaves. *)
Inductive reachable : option Registry -> Prop :=
  | reach_nil : reachable None
  | reach_zero : reachable (Some (mkRegistry None))
  | reach_new : reachable NewRegistry
  | reach_RegisterE r name b : reachable r -> reachable (fst (RegisterE r name b)).

(** Every budget stored is not nil, typed nil included, under a trimmed,
    non-empty name. *)
Definition wellStored (r : option Registry) : Prop :=
  match r with
  | Some (mkRegistry (Some m0)) =>
    forall n b, m0 n = Some b ->
      internal.IsTypedNil (asAny b) = false
      /\ n <> "" /\ exists name, n = strings.TrimSpace name
  | _ => True
  end.

Lemma reachable_wellStored r : reachable r -> wellStored r.
Proof.
  induction 1 as [| | |r name b Hr IH]; cbn; try exact I.
  - intros n b; discriminate.
  - unfold RegisterE. destruct r as [reg|]; [|exact I]. cbv zeta.
    destruct (String.eqb_spec (strings.TrimSpace name) "") as [|Hne]; [exact IH|].
    destruct (internal.IsTypedNil (asAny b)) eqn:Hb; [exact IH|].
    cbn [fst wellStored]. intros n b'.
    destruct (String.eqb_spec n (strings.TrimSpace name)) as [->|Hn].
    + intros H; inversion H; subst b'. repeat split; eauto.
    + destruct reg as [[m0|]]; cbn [m]; [|discriminate]. apply IH.
Qed.

(** X23. On every registry built from the nil pointer, the zero value or
    [NewRegistry()] by registrations, [Get] answers [ok = true] only with a
    budget that is neither nil nor a typed nil and only for a name that is
    not blank; it answers [ok = false] with the nil budget; and it gives
    the same answer for a name and for its trimmed form. *)
Theorem Get_sound r n :
  reachable r ->
  (snd (Get r n) = true ->
     internal.IsTypedNil (asAny (fst (Get r n))) = false
     /\ strings.TrimSpace n <> "")
  /\ (snd (Get r n) = false -> fst (Get r n) = NilBudget)
  /\ Get r (strings.TrimSpace n) = Get r n.
Proof.
  intros Hr. apply reachable_wellStored in Hr.
  assert (Hidem : Get r (strings.TrimSpace n) = Get r n).
  { unfold Get. destruct r; [|reflexivity]. cbv zeta.
    now rewrite TrimSpace_idempotent. }
  split; [|split; [|exact Hidem]]; unfold Get; destruct r as [[[m0|]]|]; cbv zeta;
    cbn [m]; try (cbn; discriminate); try reflexivity;
    destruct (String.eqb_spec (strings.TrimSpace n) "") as [Hn|Hn];
    try (cbn; discriminate); try reflexivity.
  - destruct (m0 _) as [b|] eqn:E; cbn [fst snd andb]; [|discriminate].
    intros _. split; [|exact Hn]. exact (proj1 (Hr _ _ E)).
  - destruct (m0 _) as [b|] eqn:E; cbn [fst snd andb]; [|reflexivity].
    destruct b; [reflexivity|discriminate].
Qed.

End BudgetRegistry.

Definition demoBudget : budget.Budget := budget.Impl internal.Ptr false 7.
Definition demoRegistry : option budget.Registry :=
  fst (budget.RegisterE budget.NewRegistry " db " demoBudget).

Lemma RegisterE_Get_witness : budget.Get demoRegistry "db" = (demoBudget, true).
Proof.
  assert (H : budget.RegisterE budget.NewRegistry " db " demoBudget = (demoRegistry, None))
    by (vm_compute; reflexivity).
  apply (proj1 (RegisterE_Get budget.NewRegistry " db " demoBudget demoRegistry H)).
  vm_compute. reflexivity.
Defined.

Lemma Get_sound_witness :
  budget.Get demoRegistry (strings.TrimSpace "db  ") = budget.Get demoRegistry "db  ".
Proof.
  exact (proj2 (proj2 (Get_sound demoRegistry "db  "
                         (reach_RegisterE _ " db " demoBudget reach_new)))).
Defined.

(** ** The options of package policy *)

Section OptionProperties.

Import policy.

(** The options and presets options.go exports. *)
Inductive libraryOption : Option -> Prop :=
  | lib_MaxAttempts n : libraryOption (MaxAttempts n)
  | lib_InitialBackoff d : libraryOption (InitialBackoff d)
  | lib_MaxBackoff d : libraryOption (MaxBackoff d)
  | lib_BackoffMultiplier m : libraryOption (BackoffMultiplier m)
  | lib_Backoff i m x : libraryOption (Backoff i m x)
  | lib_Jitter j : libraryOption (Jitter j)
  | lib_PerAttemptTimeout d : libraryOption (PerAttemptTimeout d)
  | lib_OverallTimeout d : libraryOption (OverallTimeout d)
  | lib_Classifier name : libraryOption (Classifier name)
  | lib_Budget name : libraryOption (Budget name)
  | lib_BudgetWithCost name cost : libraryOption (BudgetWithCost name cost)
  | lib_PolicyID id : libraryOption (PolicyID id)
  | lib_EnableHedging : libraryOption EnableHedging
  | lib_HedgeMaxAttempts n : libraryOption (HedgeMaxAttempts n)
  | lib_HedgeDelay d : libraryOption (HedgeDelay d)
  | lib_HedgeTrigger name : libraryOption (HedgeTrigger name)
  | lib_HedgeBudget name : libraryOption (HedgeBudget name)
  | lib_HedgeCancelOnTerminal c : libraryOption (HedgeCancelOnTerminal c)
  | lib_ExponentialBackoff i m : libraryOption (ExponentialBackoff i m)
  | lib_ConstantBackoff d : libraryOption (ConstantBackoff d)
  | lib_HTTPDefaults : libraryOption HTTPDefaults
  | lib_DatabaseDefaults : libraryOption DatabaseDefaults
  | lib_BackgroundJobDefaults : libraryOption BackgroundJobDefaults
  | lib_LowLatencyDefaults : libraryOption LowLatencyDefaults.

(** What no option of the package writes: the key, the metadata and the
    circuit breaker. *)
Definition sameFrame (p q : EffectivePolicy) : Prop :=
  Key q = Key p /\ Meta q = Meta p /\ Circuit q = Circuit p.

Lemma libraryOption_sameFrame o p : libraryOption o -> sameFrame p (o p).
Proof.
  destruct 1; try (repeat split; reflexivity).
  unfold EnableHedging. cbv zeta.
  destruct (HedgePolicy.MaxHedges _ =? 0); destruct (HedgePolicy.HedgeDelay _ =? 0);
    repeat split; reflexivity.
Qed.

Lemma applyOptions_sameFrame opts : forall p,
  Forall libraryOption opts -> sameFrame p (applyOptions opts p).
Proof.
  unfold applyOptions.
  induction opts as [|o opts IH]; intros p H; cbn [fold_left].
  - repeat split.
  - inversion H as [|? ? Ho Hopts]; subst.
    destruct (libraryOption_sameFrame o p Ho) as (K1 & M1 & C1).
    destruct (IH (o p) Hopts) as (K2 & M2 & C2).
    repeat split; congruence.
Qed.

(** X24. *)
Theorem NewFromKey_library_options key opts :
  Forall libraryOption opts ->
  Key (NewFromKey key opts) = key
  /\ Metadata.Source (Meta (NewFromKey key opts)) = PolicySourceDefault
  /\ CircuitPolicy.Enabled (Circuit (NewFromKey key opts)) = false
  /\ Circuit (NewFromKey key opts) = Circuit (DefaultPolicyFor key).
Proof.
  intros H. destruct (applyOptions_sameFrame opts (DefaultPolicyFor key) H)
    as (K & M & C).
  unfold NewFromKey. cbv zeta. fold (applyOptions opts (DefaultPolicyFor key)).
  destruct (Normalize (applyOptions opts (DefaultPolicyFor key))) as [q|] eqn:E.
  - pose proof (touch_sameIdentity _ _ _ (Normalize_touch _ _ E))
      as (Hk & _ & Hs & _ & _ & _ & _ & _ & _ & Hc).
    rewrite Hk, Hs, Hc, K, M, C.
    split; [reflexivity|]. split; [reflexivity|]. split; [reflexivity|].
    rewrite <- C.
    assert (Hd : CircuitEnabledOf (applyOptions opts (DefaultPolicyFor key)) = false)
      by (unfold CircuitEnabledOf; now rewrite C).
    pose proof (touch_frame _ _ _ (Normalize_touch _ _ E)) as F.
    apply Circuit_ext; [exact Hc| |].
    + apply F. unfold touchedPaths. rewrite Hd.
      destruct (HedgeEnabledOf _); cbn; intuition discriminate.
    + apply F. unfold touchedPaths. rewrite Hd.
      destruct (HedgeEnabledOf _); cbn; intuition discriminate.
  - rewrite Normalize_default. repeat split.
Qed.

(** X25. *)
Theorem presets_returned_unchanged key :
  NewFromKey key [] = DefaultPolicyFor key
  /\ NewFromKey key [ HTTPDefaults ] = HTTPDefaults (DefaultPolicyFor key)
  /\ NewFromKey key [ DatabaseDefaults ] = DatabaseDefaults (DefaultPolicyFor key)
  /\ NewFromKey key [ BackgroundJobDefaults ]
     = BackgroundJobDefaults (DefaultPolicyFor key)
  /\ NewFromKey key [ LowLatencyDefaults ] = LowLatencyDefaults (DefaultPolicyFor key).
Proof.
  destruct (presets_withinGuardrails key) as (H1 & H2 & H3 & H4).
  unfold NewFromKey. cbv zeta. cbn [fold_left].
  rewrite Normalize_default.
  rewrite (Normalized_fixpoint _ (withinGuardrails_Normalized _ H1)).
  rewrite (Normalized_fixpoint _ (withinGuardrails_Normalized _ H2)).
  rewrite (Normalized_fixpoint _ (withinGuardrails_Normalized _ H3)).
  rewrite (Normalized_fixpoint _ (withinGuardrails_Normalized _ H4)).
  repeat split.
Qed.

End OptionProperties.

Lemma NewFromKey_library_options_witness :
  policy.Key (policy.NewFromKey demoKey
                [ policy.HedgeDelay (40 * time.Millisecond); policy.Jitter "bogus" ])
  = demoKey.
Proof.
  apply (NewFromKey_library_options demoKey
           [ policy.HedgeDelay (40 * time.Millisecond); policy.Jitter "bogus" ]).
  repeat constructor.
Defined.
